(** * RTL: the return-to-launch phase controller of the navigator

    A shallow embedding of [src/modules/navigator/rtl.cpp].  The C++ class
    [RTL] keeps a phase ([_rtl_state]), the flag [_rtl_start_lock], three
    cached parameters and, through its base class [MissionBlock], the
    outstanding [_mission_item]; it writes into the navigator's position
    setpoint triplet.  Every method becomes a function on an explicit state
    record, with the navigator's getters and the parameter store passed in
    as the snapshot of the cycle. *)

From Stdlib Require Import ZArith Bool List Lia.
From Stdlib Require Import Floats.SpecFloat.
Import ListNotations.

Set Implicit Arguments.

(** ** Numbers

    The altitude, yaw, radius and time fields are C [float]s, latitude and
    longitude are [double]s.  Both are carried as IEEE-754 values of the
    Standard Library's [spec_float]; the only arithmetic of the file is the
    binary32 sum and difference of altitudes and the ordered comparison,
    which is false as soon as one side is a NaN. *)

Definition float : Type := spec_float.
Definition double : Type := spec_float.

Definition prec32 : Z := 24.
Definition emax32 : Z := 128.

Definition fadd (x y : float) : float := SFadd prec32 emax32 x y.
Definition fsub (x y : float) : float := SFsub prec32 emax32 x y.
Definition fneg (x : float) : float := SFopp x.
Definition flt (x y : float) : bool := SFltb x y.
Definition fle (x y : float) : bool := SFleb x y.
Definition feq (x y : float) : bool := SFeqb x y.

Arguments fadd : simpl never.
Arguments fsub : simpl never.
Arguments fneg : simpl never.
Arguments flt : simpl never.
Arguments fle : simpl never.
Arguments feq : simpl never.

(** [NAN] and the literal [0.0f]. *)
Definition NAN : float := S754_nan.
Definition fzero : float := S754_zero false.

(** [#define DELAY_SIGMA 0.01f]: the binary32 number next to 1/100,
    [0x3C23D70A], that is 10737418 * 2^-30. *)
Definition DELAY_SIGMA : float := S754_finite false 10737418 (-30).

Definition float_of_Z (n : Z) : float := binary_normalize prec32 emax32 n 0 false.

(** ** Enumerations *)

(** Modelled from the spec: [rtl.h], which declares [enum RTLState], is not
    among the sources.  The constants are the ones [rtl.cpp] uses, in the
    order in which the specification lists the phases. *)
Inductive RTLState : Type :=
| RTL_STATE_NONE
| RTL_STATE_CLIMB
| RTL_STATE_RETURN
| RTL_STATE_DESCEND
| RTL_STATE_LOITER
| RTL_STATE_LAND
| RTL_STATE_LANDED.

Definition RTLState_eq_dec (a b : RTLState) : {a = b} + {a <> b}.
Proof. decide equality. Defined.

Definition RTLState_eqb (a b : RTLState) : bool :=
  if RTLState_eq_dec a b then true else false.

(** Modelled from the spec: [navigation.h] is not among the sources.  The
    commands are the three [rtl.cpp] assigns, waypoint, unlimited loiter and
    timed loiter, and one each for the land target and the idle target that
    the mission block constructs. *)
Inductive nav_cmd_t : Type :=
| NAV_CMD_WAYPOINT
| NAV_CMD_LOITER_UNLIMITED
| NAV_CMD_LOITER_TIME_LIMIT
| NAV_CMD_LAND
| NAV_CMD_IDLE.

(** Modelled from the spec: the origin tag of a mission item; [rtl.cpp]
    assigns [ORIGIN_ONBOARD] only. *)
Inductive origin_t : Type :=
| ORIGIN_MAVLINK
| ORIGIN_ONBOARD.

(** ** Structures *)

(** Modelled from the spec: [struct mission_item_s] is declared outside
    [rtl.cpp]; these are the fields [rtl.cpp] reads or writes, under the
    names it uses. *)
Record mission_item_s : Type := {
  altitude_is_relative : bool;
  lat : double;
  lon : double;
  altitude : float;
  yaw : float;
  loiter_radius : float;
  loiter_direction : Z;
  nav_cmd : nav_cmd_t;
  acceptance_radius : float;
  time_inside : float;
  pitch_min : float;
  autocontinue : bool;
  origin : origin_t
}.

Inductive setpoint_type_t : Type :=
| SETPOINT_TYPE_POSITION
| SETPOINT_TYPE_LOITER
| SETPOINT_TYPE_LAND
| SETPOINT_TYPE_IDLE.

(** Modelled from the spec: the downstream representation of a target.
    [rtl.cpp] reads [valid], [lat] and [lon] of the previous setpoint and
    writes [valid] of the next one; the other fields are where the
    conversion of a mission item puts the rest of the target.  The fields
    other than [valid] carry the prefix [sp_], since [lat] and [lon] name
    the fields of the mission item. *)
Record position_setpoint_s : Type := {
  valid : bool;
  sp_type : setpoint_type_t;
  sp_lat : double;
  sp_lon : double;
  sp_alt : float;
  sp_yaw : float;
  sp_loiter_radius : float;
  sp_loiter_direction : Z;
  sp_pitch_min : float
}.

Record position_setpoint_triplet_s : Type := {
  previous : position_setpoint_s;
  current : position_setpoint_s;
  next : position_setpoint_s
}.

Record vehicle_global_position_s : Type := {
  gp_lat : double;
  gp_lon : double;
  gp_alt : float
}.

Record home_position_s : Type := {
  home_lat : double;
  home_lon : double;
  home_alt : float;
  home_yaw : float
}.

(** What the getters of [_navigator] answer during one cycle.  [now] is the
    clock the reached test of the mission block consults. *)
Record Navigator : Type := {
  condition_landed : bool;
  get_global_position : vehicle_global_position_s;
  get_home_position : home_position_s;
  get_loiter_radius : float;
  get_acceptance_radius : float;
  now : Z
}.

(** The parameter store, as [updateParams] finds it. *)
Record ParamStore : Type := {
  RTL_RETURN_ALT : float;
  RTL_DESCEND_ALT : float;
  RTL_LAND_DELAY : float
}.

(** The advisories sent with [mavlink_log_critical].  A constructor keeps the
    [float] arguments of the format string as they are before the cast to
    [int] or [double] in the call. *)
Inductive Advisory : Type :=
| LogNoRtlWhenLanded
| LogClimbTo (alt above_home : float)
| LogReturnAt (alt above_home : float)
| LogDescendTo (alt above_home : float)
| LogLoiter (seconds : float)
| LogCompletedLoiter
| LogLandAtHome
| LogCompletedLanded.

(** The advisory the RETURN branch of target computation sends. *)
Definition is_return_at (a : Advisory) : bool :=
  match a with
  | LogReturnAt _ _ => true
  | _ => false
  end.

(** ** The mission block

    [RTL] derives from [MissionBlock]; the methods it inherits and the
    geometry helper are declared outside [rtl.cpp].  They are the
    operations of an interface, each with the part of the state its
    signature lets it reach: the reached latch, the setpoint triplet, or the
    item or setpoint it gets a pointer to. *)
Class MissionBlock : Type := {
  Latch : Type;
  reset_mission_item_reached : Latch -> Latch;
  is_mission_item_reached : Navigator -> mission_item_s -> Latch -> bool * Latch;
  set_previous_pos_setpoint :
    position_setpoint_triplet_s -> position_setpoint_triplet_s;
  mission_item_to_position_setpoint :
    mission_item_s -> position_setpoint_s -> position_setpoint_s;
  set_land_item : Navigator -> mission_item_s -> bool -> mission_item_s;
  set_idle_item : Navigator -> mission_item_s -> mission_item_s;
  get_bearing_to_next_waypoint : double -> double -> double -> double -> float
}.

Section Controller.

Context {MB : MissionBlock}.

(** The members of the [RTL] object, the parts of the navigator it writes, and
    the advisory log (oldest first). *)
Record RTL : Type := {
  _rtl_state : RTLState;
  _rtl_start_lock : bool;
  _mission_item : mission_item_s;
  _param_return_alt : float;
  _param_descend_alt : float;
  _param_land_delay : float;
  _reached : Latch;
  pos_sp_triplet : position_setpoint_triplet_s;
  can_loiter_at_sp : bool;
  pos_sp_triplet_updated : bool;
  mavlink_log : list Advisory
}.

(** *** Field updates *)

Definition set_rtl_state (s : RTLState) (st : RTL) : RTL :=
  {| _rtl_state := s;
     _rtl_start_lock := _rtl_start_lock st;
     _mission_item := _mission_item st;
     _param_return_alt := _param_return_alt st;
     _param_descend_alt := _param_descend_alt st;
     _param_land_delay := _param_land_delay st;
     _reached := _reached st;
     pos_sp_triplet := pos_sp_triplet st;
     can_loiter_at_sp := can_loiter_at_sp st;
     pos_sp_triplet_updated := pos_sp_triplet_updated st;
     mavlink_log := mavlink_log st |}.

Definition set_rtl_start_lock (b : bool) (st : RTL) : RTL :=
  {| _rtl_state := _rtl_state st;
     _rtl_start_lock := b;
     _mission_item := _mission_item st;
     _param_return_alt := _param_return_alt st;
     _param_descend_alt := _param_descend_alt st;
     _param_land_delay := _param_land_delay st;
     _reached := _reached st;
     pos_sp_triplet := pos_sp_triplet st;
     can_loiter_at_sp := can_loiter_at_sp st;
     pos_sp_triplet_updated := pos_sp_triplet_updated st;
     mavlink_log := mavlink_log st |}.

Definition set_mission_item (mi : mission_item_s) (st : RTL) : RTL :=
  {| _rtl_state := _rtl_state st;
     _rtl_start_lock := _rtl_start_lock st;
     _mission_item := mi;
     _param_return_alt := _param_return_alt st;
     _param_descend_alt := _param_descend_alt st;
     _param_land_delay := _param_land_delay st;
     _reached := _reached st;
     pos_sp_triplet := pos_sp_triplet st;
     can_loiter_at_sp := can_loiter_at_sp st;
     pos_sp_triplet_updated := pos_sp_triplet_updated st;
     mavlink_log := mavlink_log st |}.

Definition set_reached (l : Latch) (st : RTL) : RTL :=
  {| _rtl_state := _rtl_state st;
     _rtl_start_lock := _rtl_start_lock st;
     _mission_item := _mission_item st;
     _param_return_alt := _param_return_alt st;
     _param_descend_alt := _param_descend_alt st;
     _param_land_delay := _param_land_delay st;
     _reached := l;
     pos_sp_triplet := pos_sp_triplet st;
     can_loiter_at_sp := can_loiter_at_sp st;
     pos_sp_triplet_updated := pos_sp_triplet_updated st;
     mavlink_log := mavlink_log st |}.

Definition set_pos_sp_triplet (t : position_setpoint_triplet_s) (st : RTL) : RTL :=
  {| _rtl_state := _rtl_state st;
     _rtl_start_lock := _rtl_start_lock st;
     _mission_item := _mission_item st;
     _param_return_alt := _param_return_alt st;
     _param_descend_alt := _param_descend_alt st;
     _param_land_delay := _param_land_delay st;
     _reached := _reached st;
     pos_sp_triplet := t;
     can_loiter_at_sp := can_loiter_at_sp st;
     pos_sp_triplet_updated := pos_sp_triplet_updated st;
     mavlink_log := mavlink_log st |}.

(** [_navigator->set_can_loiter_at_sp(b)] *)
Definition set_can_loiter_at_sp (b : bool) (st : RTL) : RTL :=
  {| _rtl_state := _rtl_state st;
     _rtl_start_lock := _rtl_start_lock st;
     _mission_item := _mission_item st;
     _param_return_alt := _param_return_alt st;
     _param_descend_alt := _param_descend_alt st;
     _param_land_delay := _param_land_delay st;
     _reached := _reached st;
     pos_sp_triplet := pos_sp_triplet st;
     can_loiter_at_sp := b;
     pos_sp_triplet_updated := pos_sp_triplet_updated st;
     mavlink_log := mavlink_log st |}.

(** [_navigator->set_position_setpoint_triplet_updated()] *)
Definition set_position_setpoint_triplet_updated (st : RTL) : RTL :=
  {| _rtl_state := _rtl_state st;
     _rtl_start_lock := _rtl_start_lock st;
     _mission_item := _mission_item st;
     _param_return_alt := _param_return_alt st;
     _param_descend_alt := _param_descend_alt st;
     _param_land_delay := _param_land_delay st;
     _reached := _reached st;
     pos_sp_triplet := pos_sp_triplet st;
     can_loiter_at_sp := can_loiter_at_sp st;
     pos_sp_triplet_updated := true;
     mavlink_log := mavlink_log st |}.

(** [mavlink_log_critical(...)] *)
Definition mavlink_log_critical (a : Advisory) (st : RTL) : RTL :=
  {| _rtl_state := _rtl_state st;
     _rtl_start_lock := _rtl_start_lock st;
     _mission_item := _mission_item st;
     _param_return_alt := _param_return_alt st;
     _param_descend_alt := _param_descend_alt st;
     _param_land_delay := _param_land_delay st;
     _reached := _reached st;
     pos_sp_triplet := pos_sp_triplet st;
     can_loiter_at_sp := can_loiter_at_sp st;
     pos_sp_triplet_updated := pos_sp_triplet_updated st;
     mavlink_log := mavlink_log st ++ [a] |}.

(** [updateParams()]: every cached parameter is read again from the store. *)
Definition updateParams (ps : ParamStore) (st : RTL) : RTL :=
  {| _rtl_state := _rtl_state st;
     _rtl_start_lock := _rtl_start_lock st;
     _mission_item := _mission_item st;
     _param_return_alt := RTL_RETURN_ALT ps;
     _param_descend_alt := RTL_DESCEND_ALT ps;
     _param_land_delay := RTL_LAND_DELAY ps;
     _reached := _reached st;
     pos_sp_triplet := pos_sp_triplet st;
     can_loiter_at_sp := can_loiter_at_sp st;
     pos_sp_triplet_updated := pos_sp_triplet_updated st;
     mavlink_log := mavlink_log st |}.

Definition set_altitude (rel : bool) (a : float) (mi : mission_item_s) : mission_item_s :=
  {| altitude_is_relative := rel;
     lat := lat mi;
     lon := lon mi;
     altitude := a;
     yaw := yaw mi;
     loiter_radius := loiter_radius mi;
     loiter_direction := loiter_direction mi;
     nav_cmd := nav_cmd mi;
     acceptance_radius := acceptance_radius mi;
     time_inside := time_inside mi;
     pitch_min := pitch_min mi;
     autocontinue := autocontinue mi;
     origin := origin mi |}.

Definition set_next_valid (b : bool) (t : position_setpoint_triplet_s)
  : position_setpoint_triplet_s :=
  {| previous := previous t;
     current := current t;
     next := {| valid := b;
                sp_type := sp_type (next t);
                sp_lat := sp_lat (next t);
                sp_lon := sp_lon (next t);
                sp_alt := sp_alt (next t);
                sp_yaw := sp_yaw (next t);
                sp_loiter_radius := sp_loiter_radius (next t);
                sp_loiter_direction := sp_loiter_direction (next t);
                sp_pitch_min := sp_pitch_min (next t) |} |}.

Definition set_current (sp : position_setpoint_s) (t : position_setpoint_triplet_s)
  : position_setpoint_triplet_s :=
  {| previous := previous t; current := sp; next := next t |}.

(** ** The methods of [RTL] *)

(** [RTL::on_inactive]: "reset RTL state only if setpoint moved". *)
Definition on_inactive (st : RTL) : RTL :=
  if negb (can_loiter_at_sp st)
  then set_rtl_state RTL_STATE_NONE st
  else st.

(** The first half of [RTL::on_activation], up to the call of
    [set_rtl_item]: "decide where to enter the RTL procedure when we switch
    into it". *)
Definition entry_decision (nav : Navigator) (st : RTL) : RTL :=
  match _rtl_state st with
  | RTL_STATE_NONE =>
      if condition_landed nav then
        (* for safety reasons don't go into RTL if landed *)
        mavlink_log_critical LogNoRtlWhenLanded
          (set_rtl_state RTL_STATE_LANDED st)
      else if flt (gp_alt (get_global_position nav))
                  (fadd (home_alt (get_home_position nav)) (_param_return_alt st))
      then
        (* if lower than return altitude, climb up first *)
        set_rtl_start_lock false (set_rtl_state RTL_STATE_CLIMB st)
      else
        (* otherwise go straight to return: set altitude setpoint to
           current altitude *)
        set_rtl_start_lock false
          (set_mission_item
             (set_altitude false (gp_alt (get_global_position nav))
                (_mission_item st))
             (set_rtl_state RTL_STATE_RETURN st))
  | _ => st
  end.

(** The statements of [RTL::set_rtl_item] before the switch. *)
Definition begin_item (ps : ParamStore) (st : RTL) : RTL :=
  (* make sure we have the latest params *)
  let st := updateParams ps st in
  let st :=
    if negb (_rtl_start_lock st)
    then set_pos_sp_triplet (set_previous_pos_setpoint (pos_sp_triplet st)) st
    else st in
  set_can_loiter_at_sp false st.

(** The body of [case RTL_STATE_CLIMB]. *)
Definition climb_item (nav : Navigator) (st : RTL) : RTL :=
  let climb_alt := fadd (home_alt (get_home_position nav)) (_param_return_alt st) in
  let st :=
    set_mission_item
      {| altitude_is_relative := false;
         lat := gp_lat (get_global_position nav);
         lon := gp_lon (get_global_position nav);
         altitude := climb_alt;
         yaw := NAN;
         loiter_radius := get_loiter_radius nav;
         loiter_direction := 1;
         nav_cmd := NAV_CMD_WAYPOINT;
         acceptance_radius := get_acceptance_radius nav;
         time_inside := fzero;
         pitch_min := fzero;
         autocontinue := true;
         origin := ORIGIN_ONBOARD |} st in
  mavlink_log_critical
    (LogClimbTo climb_alt (fsub climb_alt (home_alt (get_home_position nav)))) st.

(** The body of [case RTL_STATE_RETURN]; the altitude fields keep their
    values ("don't change altitude"), and the bearing is taken to the
    latitude and longitude just written into the item, which are home's. *)
Definition return_item (nav : Navigator) (st : RTL) : RTL :=
  let home := get_home_position nav in
  let prev := previous (pos_sp_triplet st) in
  let new_yaw :=
    if valid prev then
      (* if previous setpoint is valid then use it to calculate heading
         to home *)
      get_bearing_to_next_waypoint (sp_lat prev) (sp_lon prev)
        (home_lat home) (home_lon home)
    else
      (* else use current position *)
      get_bearing_to_next_waypoint
        (gp_lat (get_global_position nav)) (gp_lon (get_global_position nav))
        (home_lat home) (home_lon home) in
  let old := _mission_item st in
  let st :=
    set_mission_item
      {| altitude_is_relative := altitude_is_relative old;
         lat := home_lat home;
         lon := home_lon home;
         altitude := altitude old;
         yaw := new_yaw;
         loiter_radius := get_loiter_radius nav;
         loiter_direction := 1;
         nav_cmd := NAV_CMD_WAYPOINT;
         acceptance_radius := get_acceptance_radius nav;
         time_inside := fzero;
         pitch_min := fzero;
         autocontinue := true;
         origin := ORIGIN_ONBOARD |} st in
  let st :=
    mavlink_log_critical
      (LogReturnAt (altitude (_mission_item st))
         (fsub (altitude (_mission_item st)) (home_alt home))) st in
  set_rtl_start_lock true st.

(** The body of [case RTL_STATE_DESCEND]. *)
Definition descend_item (nav : Navigator) (st : RTL) : RTL :=
  let home := get_home_position nav in
  let st :=
    set_mission_item
      {| altitude_is_relative := false;
         lat := home_lat home;
         lon := home_lon home;
         altitude := fadd (home_alt home) (_param_descend_alt st);
         yaw := home_yaw home;
         loiter_radius := get_loiter_radius nav;
         loiter_direction := 1;
         nav_cmd := NAV_CMD_LOITER_TIME_LIMIT;
         acceptance_radius := get_acceptance_radius nav;
         time_inside := fzero;
         pitch_min := fzero;
         autocontinue := false;
         origin := ORIGIN_ONBOARD |} st in
  mavlink_log_critical
    (LogDescendTo (altitude (_mission_item st))
       (fsub (altitude (_mission_item st)) (home_alt home))) st.

(** The body of [case RTL_STATE_LOITER]. *)
Definition loiter_item (nav : Navigator) (st : RTL) : RTL :=
  let home := get_home_position nav in
  let autoland := flt (fneg DELAY_SIGMA) (_param_land_delay st) in
  let st :=
    set_mission_item
      {| altitude_is_relative := false;
         lat := home_lat home;
         lon := home_lon home;
         altitude := fadd (home_alt home) (_param_descend_alt st);
         yaw := home_yaw home;
         loiter_radius := get_loiter_radius nav;
         loiter_direction := 1;
         nav_cmd := if autoland then NAV_CMD_LOITER_TIME_LIMIT
                    else NAV_CMD_LOITER_UNLIMITED;
         acceptance_radius := get_acceptance_radius nav;
         time_inside := if flt (_param_land_delay st) fzero then fzero
                        else _param_land_delay st;
         pitch_min := fzero;
         autocontinue := autoland;
         origin := ORIGIN_ONBOARD |} st in
  let st := set_can_loiter_at_sp true st in
  if autoland
  then mavlink_log_critical (LogLoiter (time_inside (_mission_item st))) st
  else mavlink_log_critical LogCompletedLoiter st.

(** The [switch (_rtl_state)] of [RTL::set_rtl_item]. *)
Definition rtl_item_of_state (nav : Navigator) (st : RTL) : RTL :=
  match _rtl_state st with
  | RTL_STATE_CLIMB => climb_item nav st
  | RTL_STATE_RETURN => return_item nav st
  | RTL_STATE_DESCEND => descend_item nav st
  | RTL_STATE_LOITER => loiter_item nav st
  | RTL_STATE_LAND =>
      mavlink_log_critical LogLandAtHome
        (set_mission_item (set_land_item nav (_mission_item st) false) st)
  | RTL_STATE_LANDED =>
      mavlink_log_critical LogCompletedLanded
        (set_mission_item (set_idle_item nav (_mission_item st)) st)
  | RTL_STATE_NONE => st
  end.

(** The last four statements of [RTL::set_rtl_item]. *)
Definition publish_item (st : RTL) : RTL :=
  let st := set_reached (reset_mission_item_reached (_reached st)) st in
  (* convert mission item to current position setpoint and make it valid *)
  let t := pos_sp_triplet st in
  let t := set_current
             (mission_item_to_position_setpoint (_mission_item st) (current t)) t in
  let t := set_next_valid false t in
  let st := set_pos_sp_triplet t st in
  set_position_setpoint_triplet_updated st.

(** [RTL::set_rtl_item] *)
Definition set_rtl_item (nav : Navigator) (ps : ParamStore) (st : RTL) : RTL :=
  publish_item (rtl_item_of_state nav (begin_item ps st)).

(** [RTL::on_activation] *)
Definition on_activation (nav : Navigator) (ps : ParamStore) (st : RTL) : RTL :=
  set_rtl_item nav ps (entry_decision nav st).

(** [RTL::advance_rtl] *)
Definition advance_rtl (st : RTL) : RTL :=
  match _rtl_state st with
  | RTL_STATE_CLIMB => set_rtl_state RTL_STATE_RETURN st
  | RTL_STATE_RETURN => set_rtl_state RTL_STATE_DESCEND st
  | RTL_STATE_DESCEND =>
      (* only go to land if autoland is enabled *)
      if flt (_param_land_delay st) (fneg DELAY_SIGMA)
         || flt DELAY_SIGMA (_param_land_delay st)
      then set_rtl_state RTL_STATE_LOITER st
      else set_rtl_state RTL_STATE_LAND st
  | RTL_STATE_LOITER => set_rtl_state RTL_STATE_LAND st
  | RTL_STATE_LAND => set_rtl_state RTL_STATE_LANDED st
  | _ => st
  end.

(** [RTL::on_active]; [&&] does not ask whether the item is reached when the
    phase is [RTL_STATE_LANDED]. *)
Definition on_active (nav : Navigator) (ps : ParamStore) (st : RTL) : RTL :=
  if RTLState_eqb (_rtl_state st) RTL_STATE_LANDED then st
  else
    let (reached, l) := is_mission_item_reached nav (_mission_item st) (_reached st) in
    let st := set_reached l st in
    if reached then set_rtl_item nav ps (advance_rtl st) else st.

(** [RTL::RTL]: the member initialisers, [updateParams()] and the initial
    [on_inactive()].  The mission item, the latch and the navigator's side
    are what the base class and the navigator hold at that moment. *)
Definition RTL_new (ps : ParamStore) (mi : mission_item_s) (l : Latch)
    (t : position_setpoint_triplet_s) (can_loiter updated : bool)
    (log : list Advisory) : RTL :=
  on_inactive
    (updateParams ps
       {| _rtl_state := RTL_STATE_NONE;
          _rtl_start_lock := false;
          _mission_item := mi;
          _param_return_alt := fzero;
          _param_descend_alt := fzero;
          _param_land_delay := fzero;
          _reached := l;
          pos_sp_triplet := t;
          can_loiter_at_sp := can_loiter;
          pos_sp_triplet_updated := updated;
          mavlink_log := log |}).

(** ** Cycles

    The scheduler calls one hook per cycle. *)
Inductive Hook : Type :=
| OnInactive
| OnActivation (nav : Navigator) (ps : ParamStore)
| OnActive (nav : Navigator) (ps : ParamStore).

Definition run_hook (h : Hook) (st : RTL) : RTL :=
  match h with
  | OnInactive => on_inactive st
  | OnActivation nav ps => on_activation nav ps st
  | OnActive nav ps => on_active nav ps st
  end.

Fixpoint run (hs : list Hook) (st : RTL) : RTL :=
  match hs with
  | [] => st
  | h :: hs' => run hs' (run_hook h st)
  end.

(** The position of a phase in the order of the enumeration, which is the
    order NONE, CLIMB, RETURN, DESCEND, LOITER, LAND, LANDED. *)
Definition phase_rank (s : RTLState) : nat :=
  match s with
  | RTL_STATE_NONE => 0
  | RTL_STATE_CLIMB => 1
  | RTL_STATE_RETURN => 2
  | RTL_STATE_DESCEND => 3
  | RTL_STATE_LOITER => 4
  | RTL_STATE_LAND => 5
  | RTL_STATE_LANDED => 6
  end.

End Controller.

Arguments RTL {MB}.

(** ** A mission block to run the controller on

    Every theorem below holds for any mission block.  To evaluate the
    controller on concrete inputs the examples use this one, which follows
    the base class in outline: the reached test looks at the command, the
    position and the altitude, the conversion copies the item into the
    setpoint, and the bearing is the difference of the longitudes, a
    stand-in for the trigonometric one that still tells the two call sites
    of [return_item] apart. *)
Module Sample.

Definition near (nav : Navigator) (mi : mission_item_s) : bool :=
  feq (gp_lat (get_global_position nav)) (lat mi)
  && feq (gp_lon (get_global_position nav)) (lon mi)
  && flt (SFabs (fsub (gp_alt (get_global_position nav)) (altitude mi)))
         (acceptance_radius mi).

Definition is_reached (nav : Navigator) (mi : mission_item_s) (l : bool)
  : bool * bool :=
  match nav_cmd mi with
  | NAV_CMD_LAND => (condition_landed nav, l)
  | NAV_CMD_LOITER_UNLIMITED => (false, l)
  | _ => let inside := l || near nav mi in (inside, inside)
  end.

Definition reuse_current (t : position_setpoint_triplet_s)
  : position_setpoint_triplet_s :=
  if valid (current t)
  then {| previous := current t; current := current t; next := next t |}
  else t.

Definition to_setpoint (mi : mission_item_s) (sp : position_setpoint_s)
  : position_setpoint_s :=
  {| valid := true;
     sp_type := match nav_cmd mi with
                | NAV_CMD_LAND => SETPOINT_TYPE_LAND
                | NAV_CMD_IDLE => SETPOINT_TYPE_IDLE
                | NAV_CMD_LOITER_TIME_LIMIT
                | NAV_CMD_LOITER_UNLIMITED => SETPOINT_TYPE_LOITER
                | NAV_CMD_WAYPOINT => SETPOINT_TYPE_POSITION
                end;
     sp_lat := lat mi;
     sp_lon := lon mi;
     sp_alt := altitude mi;
     sp_yaw := yaw mi;
     sp_loiter_radius := loiter_radius mi;
     sp_loiter_direction := loiter_direction mi;
     sp_pitch_min := pitch_min mi |}.

Definition land_item (nav : Navigator) (mi : mission_item_s) (at_current : bool)
  : mission_item_s :=
  {| altitude_is_relative := false;
     lat := if at_current then gp_lat (get_global_position nav)
            else home_lat (get_home_position nav);
     lon := if at_current then gp_lon (get_global_position nav)
            else home_lon (get_home_position nav);
     altitude := home_alt (get_home_position nav);
     yaw := NAN;
     loiter_radius := get_loiter_radius nav;
     loiter_direction := 1;
     nav_cmd := NAV_CMD_LAND;
     acceptance_radius := get_acceptance_radius nav;
     time_inside := fzero;
     pitch_min := fzero;
     autocontinue := true;
     origin := ORIGIN_ONBOARD |}.

Definition idle_item (nav : Navigator) (mi : mission_item_s) : mission_item_s :=
  {| altitude_is_relative := false;
     lat := home_lat (get_home_position nav);
     lon := home_lon (get_home_position nav);
     altitude := home_alt (get_home_position nav);
     yaw := NAN;
     loiter_radius := get_loiter_radius nav;
     loiter_direction := 1;
     nav_cmd := NAV_CMD_IDLE;
     acceptance_radius := get_acceptance_radius nav;
     time_inside := fzero;
     pitch_min := fzero;
     autocontinue := true;
     origin := ORIGIN_ONBOARD |}.

#[export] Instance mission_block : MissionBlock :=
  {| Latch := bool;
     reset_mission_item_reached := fun _ => false;
     is_mission_item_reached := is_reached;
     set_previous_pos_setpoint := reuse_current;
     mission_item_to_position_setpoint := to_setpoint;
     set_land_item := land_item;
     set_idle_item := idle_item;
     get_bearing_to_next_waypoint := fun _ lon1 _ lon2 => fsub lon2 lon1 |}.

(** Home at (0, 0, 100 m), loiter radius 50 m, acceptance radius 10 m. *)
Definition home : home_position_s :=
  {| home_lat := fzero; home_lon := fzero;
     home_alt := float_of_Z 100; home_yaw := fzero |}.

Definition nav_at (landed : bool) (la lo al : Z) : Navigator :=
  {| condition_landed := landed;
     get_global_position :=
       {| gp_lat := float_of_Z la; gp_lon := float_of_Z lo; gp_alt := float_of_Z al |};
     get_home_position := home;
     get_loiter_radius := float_of_Z 50;
     get_acceptance_radius := float_of_Z 10;
     now := 0 |}.

(** Return altitude 50 m, descend altitude 20 m, and a land delay. *)
Definition params (land_delay : float) : ParamStore :=
  {| RTL_RETURN_ALT := float_of_Z 50;
     RTL_DESCEND_ALT := float_of_Z 20;
     RTL_LAND_DELAY := land_delay |}.

Definition blank_item : mission_item_s :=
  {| altitude_is_relative := false;
     lat := fzero; lon := fzero; altitude := fzero; yaw := fzero;
     loiter_radius := fzero; loiter_direction := 0;
     nav_cmd := NAV_CMD_WAYPOINT;
     acceptance_radius := fzero; time_inside := fzero; pitch_min := fzero;
     autocontinue := false; origin := ORIGIN_MAVLINK |}.

Definition blank_setpoint : position_setpoint_s :=
  {| valid := false; sp_type := SETPOINT_TYPE_POSITION;
     sp_lat := fzero; sp_lon := fzero; sp_alt := fzero; sp_yaw := fzero;
     sp_loiter_radius := fzero; sp_loiter_direction := 0; sp_pitch_min := fzero |}.

Definition blank_triplet : position_setpoint_triplet_s :=
  {| previous := blank_setpoint; current := blank_setpoint; next := blank_setpoint |}.

(** The controller as its constructor leaves it. *)
Definition fresh (land_delay : float) : RTL :=
  RTL_new (params land_delay) blank_item false blank_triplet false false [].

(** A controller held in a given phase. *)
Definition held (s : RTLState) (lock : bool) (land_delay : float) : RTL :=
  set_rtl_start_lock lock (set_rtl_state s (fresh land_delay)).

(** A first use of RTL: the constructor, an activation at 200 m, which
    enters at RETURN, and a cycle in which another mode is selected. *)
Definition first_flight : RTL :=
  run [ OnActivation (nav_at false 5 5 200) (params fzero); OnInactive ]
      (fresh fzero).

(** The vehicle was then landed by hand, next to home. *)
Definition landed_at_home : Navigator := nav_at true 0 0 100.

(** The flight of the specification's example: activation at 80 m below the
    return altitude, then a cycle at the climb target, one over home at the
    return altitude, one at the descend altitude, and one on the ground. *)
Definition example_flight : list Hook :=
  [ OnActivation (nav_at false 7 7 80) (params fzero);
    OnActive (nav_at false 7 7 150) (params fzero);
    OnActive (nav_at false 0 0 150) (params fzero);
    OnActive (nav_at false 0 0 120) (params fzero);
    OnActive (nav_at true 0 0 100) (params fzero) ].

End Sample.

(** ** Notions of the specification *)

(** One step along the fixed order: the transitions the specification lists
    for advancement, and the two phases it leaves alone. *)
Inductive next_phase : RTLState -> RTLState -> Prop :=
| next_climb : next_phase RTL_STATE_CLIMB RTL_STATE_RETURN
| next_return : next_phase RTL_STATE_RETURN RTL_STATE_DESCEND
| next_descend_loiter : next_phase RTL_STATE_DESCEND RTL_STATE_LOITER
| next_descend_land : next_phase RTL_STATE_DESCEND RTL_STATE_LAND
| next_loiter : next_phase RTL_STATE_LOITER RTL_STATE_LAND
| next_land : next_phase RTL_STATE_LAND RTL_STATE_LANDED
| next_none : next_phase RTL_STATE_NONE RTL_STATE_NONE
| next_landed : next_phase RTL_STATE_LANDED RTL_STATE_LANDED.

(** The phases in which advancement moves. *)
Definition in_sequence (s : RTLState) : Prop :=
  s <> RTL_STATE_NONE /\ s <> RTL_STATE_LANDED.

(** The land delay lies outside the closed band around zero, or inside it. *)
Definition outside_band (d : float) : Prop :=
  flt d (fneg DELAY_SIGMA) = true \/ flt DELAY_SIGMA d = true.

Definition within_band (d : float) : Prop :=
  fle (fneg DELAY_SIGMA) d = true /\ fle d DELAY_SIGMA = true.

(** [t] is a maximum of [a] and [b] in the order of the floats: it is one of
    the two and neither of them is above it.  Among numbers this fixes [t]
    up to the sign of a zero; a NaN is comparable to nothing. *)
Definition is_maximum (t a b : float) : Prop :=
  (t = a \/ t = b) /\ flt t a = false /\ flt t b = false.

(** The greater of two floats as [fmaxf] of [<math.h>] gives it: a NaN
    operand is dropped in favour of the other one. *)
Definition fmaxf (a b : float) : float :=
  match a, b with
  | S754_nan, _ => b
  | _, S754_nan => a
  | _, _ => if flt a b then b else a
  end.

Section Frames.

Context {MB : MissionBlock}.

(** Two states differ at most in the phase. *)
Definition same_but_phase (st st' : RTL) : Prop :=
  _rtl_start_lock st' = _rtl_start_lock st /\
  _mission_item st' = _mission_item st /\
  _param_return_alt st' = _param_return_alt st /\
  _param_descend_alt st' = _param_descend_alt st /\
  _param_land_delay st' = _param_land_delay st /\
  _reached st' = _reached st /\
  pos_sp_triplet st' = pos_sp_triplet st /\
  can_loiter_at_sp st' = can_loiter_at_sp st /\
  pos_sp_triplet_updated st' = pos_sp_triplet_updated st /\
  mavlink_log st' = mavlink_log st.

(** Two states differ at most in the reached latch. *)
Definition same_but_latch (st st' : RTL) : Prop :=
  _rtl_state st' = _rtl_state st /\
  _rtl_start_lock st' = _rtl_start_lock st /\
  _mission_item st' = _mission_item st /\
  _param_return_alt st' = _param_return_alt st /\
  _param_descend_alt st' = _param_descend_alt st /\
  _param_land_delay st' = _param_land_delay st /\
  pos_sp_triplet st' = pos_sp_triplet st /\
  can_loiter_at_sp st' = can_loiter_at_sp st /\
  pos_sp_triplet_updated st' = pos_sp_triplet_updated st /\
  mavlink_log st' = mavlink_log st.

(** The triplet as the switch of [set_rtl_item] sees it: with the previous
    setpoint captured unless the start lock is set. *)
Definition captured_triplet (st : RTL) : position_setpoint_triplet_s :=
  if _rtl_start_lock st then pos_sp_triplet st
  else set_previous_pos_setpoint (pos_sp_triplet st).

(** The start lock follows the RETURN target within an activation whose log
    began at [log0]: the phase is past the entry, the lock is set exactly
    from RETURN on, and exactly when the activation has sent the advisory of
    a RETURN target. *)
Definition lock_tracks_return (log0 : list Advisory) (st : RTL) : Prop :=
  _rtl_state st <> RTL_STATE_NONE /\
  _rtl_start_lock st
    = (phase_rank RTL_STATE_RETURN <=? phase_rank (_rtl_state st)) /\
  exists l, mavlink_log st = log0 ++ l /\
            existsb is_return_at l = _rtl_start_lock st.

(** The hooks of one activation: a list of [on_active] cycles. *)
Definition all_active (hs : list Hook) : Prop :=
  Forall (fun h => match h with OnActive _ _ => True | _ => False end) hs.

End Frames.

(** ** The controller among the other navigation modes *)

Section Reach.

Context {MB : MissionBlock}.

(** The states the controller can be in: the constructor's, and from there
    any hook of the scheduler, and any write of another navigation mode to
    what the navigator shares, the loiter permission, the setpoint triplet
    and the advisory log. *)
Inductive reachable : RTL -> Prop :=
| reach_new (ps : ParamStore) (mi : mission_item_s) (l : Latch)
    (t : position_setpoint_triplet_s) (can_loiter updated : bool)
    (log : list Advisory) :
    reachable (RTL_new ps mi l t can_loiter updated log)
| reach_hook (h : Hook) (st : RTL) :
    reachable st -> reachable (run_hook h st)
| reach_loiter_flag (b : bool) (st : RTL) :
    reachable st -> reachable (set_can_loiter_at_sp b st)
| reach_triplet (t : position_setpoint_triplet_s) (st : RTL) :
    reachable st -> reachable (set_pos_sp_triplet t st)
| reach_log (a : Advisory) (st : RTL) :
    reachable st -> reachable (mavlink_log_critical a st).

(** The start lock agrees with the phase: clear while climbing, set from
    RETURN to LAND. *)
Definition lock_matches_phase (st : RTL) : Prop :=
  match _rtl_state st with
  | RTL_STATE_CLIMB => _rtl_start_lock st = false
  | RTL_STATE_RETURN | RTL_STATE_DESCEND | RTL_STATE_LOITER | RTL_STATE_LAND =>
      _rtl_start_lock st = true
  | RTL_STATE_NONE | RTL_STATE_LANDED => True
  end.

(** The outstanding mission item is one of the current phase: an absolute
    altitude, and the command and continuation of the phase. *)
Definition item_matches_phase (st : RTL) : Prop :=
  let mi := _mission_item st in
  match _rtl_state st with
  | RTL_STATE_CLIMB | RTL_STATE_RETURN =>
      altitude_is_relative mi = false /\
      nav_cmd mi = NAV_CMD_WAYPOINT /\ autocontinue mi = true /\
      time_inside mi = fzero
  | RTL_STATE_DESCEND =>
      altitude_is_relative mi = false /\
      nav_cmd mi = NAV_CMD_LOITER_TIME_LIMIT /\ autocontinue mi = false /\
      time_inside mi = fzero
  | RTL_STATE_LOITER =>
      altitude_is_relative mi = false /\
      (nav_cmd mi = NAV_CMD_LOITER_TIME_LIMIT /\ autocontinue mi = true \/
       nav_cmd mi = NAV_CMD_LOITER_UNLIMITED /\ autocontinue mi = false)
  | RTL_STATE_LAND | RTL_STATE_LANDED | RTL_STATE_NONE => True
  end.

(** The phases whose target [rtl.cpp] fills in field by field. *)
Definition computed_phase (s : RTLState) : Prop :=
  s = RTL_STATE_CLIMB \/ s = RTL_STATE_RETURN \/
  s = RTL_STATE_DESCEND \/ s = RTL_STATE_LOITER.

(** Cycles in which RTL is not activated: [on_inactive] and [on_active]. *)
Definition no_activation (hs : list Hook) : Prop :=
  Forall (fun h => match h with OnActivation _ _ => False | _ => True end) hs.

(** The mission item is reached in this cycle. *)
Definition reached_now (nav : Navigator) (st : RTL) : Prop :=
  fst (is_mission_item_reached nav (_mission_item st) (_reached st)) = true.

(** In each cycle of a run of [on_active] cycles the phase is LANDED or the
    mission item is reached. *)
Fixpoint all_reached (hs : list Hook) (st : RTL) : Prop :=
  match hs with
  | [] => True
  | OnActive nav ps :: hs' =>
      (_rtl_state st = RTL_STATE_LANDED \/ reached_now nav st) /\
      all_reached hs' (on_active nav ps st)
  | _ :: _ => False
  end.

End Reach.

(** Concrete flights for the sample mission block. *)
Module Flights.

Import Sample.

(** After the activation at 80 m: phase CLIMB, target 150 m. *)
Definition climbing : RTL :=
  on_activation (nav_at false 7 7 80) (params fzero) (fresh fzero).

(** After the climb target is reached: phase RETURN, with the climb setpoint
    captured as the previous one. *)
Definition returning : RTL :=
  on_active (nav_at false 7 7 150) (params fzero) climbing.

(** Over home at the return altitude: phase DESCEND. *)
Definition descending (land_delay : float) : RTL :=
  on_active (nav_at false 0 0 150) (params land_delay) returning.

(** The cycles that take [climbing] to the ground, each at its target, and
    one more. *)
Definition to_the_ground : list Hook :=
  [ OnActive (nav_at false 7 7 150) (params fzero);
    OnActive (nav_at false 0 0 150) (params fzero);
    OnActive (nav_at false 0 0 120) (params fzero);
    OnActive (nav_at true 0 0 100) (params fzero);
    OnActive (nav_at true 0 0 100) (params fzero) ].

(** An airborne vehicle whose altitude estimate is not a number. *)
Definition nav_without_altitude : Navigator :=
  {| condition_landed := false;
     get_global_position :=
       {| gp_lat := float_of_Z 7; gp_lon := float_of_Z 7; gp_alt := NAN |};
     get_home_position := home;
     get_loiter_radius := float_of_Z 50;
     get_acceptance_radius := float_of_Z 10;
     now := 0 |}.

End Flights.

(** ** Facts about the comparison of floats *)

Lemma SFcompare_antisym (x y : spec_float) :
  SFcompare y x = option_map CompOpp (SFcompare x y).
Proof.
  destruct x as [sx|sx| |sx mx ex], y as [sy|sy| |sy my ey]; simpl;
    try reflexivity;
    try (destruct sx; reflexivity);
    try (destruct sy; reflexivity);
    try (destruct sx, sy; reflexivity).
  destruct sx, sy; simpl; try reflexivity;
    rewrite (Z.compare_antisym ey ex);
    destruct (ey ?= ex)%Z; simpl; try reflexivity;
    rewrite (Pos.compare_cont_antisym mx my Eq); simpl;
    destruct (Pos.compare_cont Eq mx my); reflexivity.
Qed.

Lemma SFcompare_refl_finite (s : bool) (m : positive) (e : Z) :
  SFcompare (S754_finite s m e) (S754_finite s m e) = Some Eq.
Proof.
  simpl. rewrite Z.compare_refl, Pos.compare_cont_refl. destruct s; reflexivity.
Qed.

Lemma flt_asym (x y : float) : flt x y = true -> flt y x = false.
Proof.
  unfold flt, SFltb. rewrite (SFcompare_antisym x y).
  destruct (SFcompare x y) as [[]|]; simpl; congruence.
Qed.

Lemma flt_irrefl (x : float) : flt x x = false.
Proof.
  destruct (flt x x) eqn:E; [|reflexivity].
  rewrite (flt_asym x x E) in E. discriminate.
Qed.

(** The clamp of the land delay in [loiter_item] is a maximum of zero and the
    delay, whatever the delay. *)
Lemma clamp_is_maximum (d : float) :
  is_maximum (if flt d fzero then fzero else d) fzero d.
Proof.
  unfold is_maximum. destruct (flt d fzero) eqn:E.
  - split; [left; reflexivity|]. split; [apply flt_irrefl|].
    apply flt_asym. exact E.
  - split; [right; reflexivity|]. split; [exact E|apply flt_irrefl].
Qed.

Lemma fle_not_flt (x y : float) : fle x y = true -> flt y x = false.
Proof.
  unfold fle, flt, SFleb, SFltb. rewrite (SFcompare_antisym x y).
  destruct (SFcompare x y) as [[]|]; simpl; congruence.
Qed.

(** Above [DELAY_SIGMA] a float is positive. *)
Lemma above_sigma_positive (d : float) :
  flt DELAY_SIGMA d = true ->
  flt (fneg DELAY_SIGMA) d = true /\ flt d fzero = false.
Proof.
  unfold flt, SFltb, DELAY_SIGMA, fneg, fzero, SFopp.
  destruct d as [s|s| |s m e]; cbn [SFcompare negb].
  - discriminate.
  - destruct s; [discriminate|]. intros _. split; reflexivity.
  - discriminate.
  - destruct s; [discriminate|]. intros _. split; reflexivity.
Qed.

(** Below [-DELAY_SIGMA] a float is negative. *)
Lemma below_sigma_negative (d : float) :
  flt d (fneg DELAY_SIGMA) = true ->
  flt (fneg DELAY_SIGMA) d = false /\ flt d fzero = true.
Proof.
  intros H. split; [apply flt_asym; exact H|].
  revert H. unfold flt, SFltb, DELAY_SIGMA, fneg, fzero, SFopp.
  destruct d as [s|s| |s m e]; cbn [SFcompare negb].
  - discriminate.
  - destruct s; [reflexivity|discriminate].
  - discriminate.
  - destruct s; [reflexivity|discriminate].
Qed.

(** The clamp of the land delay in [loiter_item] is numerically the greater
    of zero and the delay, whenever the delay is a number. *)
Lemma clamp_is_fmaxf (d : float) :
  d <> NAN ->
  feq (if flt d fzero then fzero else d) (fmaxf fzero d) = true.
Proof.
  unfold feq, SFeqb, flt, SFltb, fmaxf, fzero, NAN.
  destruct d as [s|s| |s m e]; try congruence; intros _.
  - reflexivity.
  - destruct s; reflexivity.
  - destruct s; [reflexivity|].
    cbn [SFcompare]. cbv iota.
    change (match SFcompare (S754_finite false m e) (S754_finite false m e)
            with Some Eq => true | _ => false end = true).
    rewrite SFcompare_refl_finite. reflexivity.
Qed.

(** ** The controller *)

Section Properties.

Context {MB : MissionBlock}.

Implicit Types (st : RTL) (nav : Navigator) (ps : ParamStore).

#[local] Ltac unfold_items :=
  unfold rtl_item_of_state, climb_item, return_item, descend_item, loiter_item.

(** *** What the steps of target computation keep *)

Lemma begin_item_frame ps st :
  _rtl_state (begin_item ps st) = _rtl_state st /\
  _rtl_start_lock (begin_item ps st) = _rtl_start_lock st /\
  _mission_item (begin_item ps st) = _mission_item st /\
  _reached (begin_item ps st) = _reached st /\
  mavlink_log (begin_item ps st) = mavlink_log st /\
  pos_sp_triplet_updated (begin_item ps st) = pos_sp_triplet_updated st.
Proof.
  unfold begin_item. cbn [updateParams _rtl_start_lock].
  destruct (negb (_rtl_start_lock st)); repeat split.
Qed.

Lemma begin_item_writes ps st :
  _param_return_alt (begin_item ps st) = RTL_RETURN_ALT ps /\
  _param_descend_alt (begin_item ps st) = RTL_DESCEND_ALT ps /\
  _param_land_delay (begin_item ps st) = RTL_LAND_DELAY ps /\
  can_loiter_at_sp (begin_item ps st) = false /\
  pos_sp_triplet (begin_item ps st) = captured_triplet st.
Proof.
  unfold begin_item, captured_triplet. cbn [updateParams _rtl_start_lock].
  destruct (_rtl_start_lock st); repeat split.
Qed.

Lemma publish_item_frame st :
  _rtl_state (publish_item st) = _rtl_state st /\
  _rtl_start_lock (publish_item st) = _rtl_start_lock st /\
  _mission_item (publish_item st) = _mission_item st /\
  can_loiter_at_sp (publish_item st) = can_loiter_at_sp st /\
  mavlink_log (publish_item st) = mavlink_log st /\
  previous (pos_sp_triplet (publish_item st)) = previous (pos_sp_triplet st).
Proof. unfold publish_item. repeat split. Qed.

Lemma rtl_item_of_state_phase nav st :
  _rtl_state (rtl_item_of_state nav st) = _rtl_state st.
Proof.
  unfold_items.
  destruct (_rtl_state st) eqn:E; try exact E.
  destruct (flt (fneg DELAY_SIGMA) (_param_land_delay st)); exact E.
Qed.

Lemma set_rtl_item_phase nav ps st :
  _rtl_state (set_rtl_item nav ps st) = _rtl_state st.
Proof.
  unfold set_rtl_item.
  destruct (publish_item_frame (rtl_item_of_state nav (begin_item ps st)))
    as (-> & _).
  rewrite rtl_item_of_state_phase. apply begin_item_frame.
Qed.

Lemma rtl_item_of_state_lock nav st :
  _rtl_start_lock (rtl_item_of_state nav st)
  = _rtl_start_lock st || RTLState_eqb (_rtl_state st) RTL_STATE_RETURN.
Proof.
  unfold_items.
  destruct (_rtl_state st) eqn:E; cbn [RTLState_eqb];
    try (rewrite orb_false_r; reflexivity).
  - rewrite orb_true_r. reflexivity.
  - rewrite orb_false_r.
    destruct (flt (fneg DELAY_SIGMA) (_param_land_delay st)); reflexivity.
Qed.

Lemma set_rtl_item_lock nav ps st :
  _rtl_start_lock (set_rtl_item nav ps st)
  = _rtl_start_lock st || RTLState_eqb (_rtl_state st) RTL_STATE_RETURN.
Proof.
  unfold set_rtl_item.
  destruct (publish_item_frame (rtl_item_of_state nav (begin_item ps st)))
    as (_ & -> & _).
  rewrite rtl_item_of_state_lock.
  destruct (begin_item_frame ps st) as (-> & -> & _). reflexivity.
Qed.

Lemma advance_rtl_frame st :
  same_but_phase st (advance_rtl st).
Proof.
  unfold advance_rtl, same_but_phase.
  destruct (_rtl_state st); try (repeat split; fail).
  destruct (flt (_param_land_delay st) (fneg DELAY_SIGMA)
            || flt DELAY_SIGMA (_param_land_delay st)); repeat split.
Qed.

Lemma advance_rtl_lock st :
  _rtl_start_lock (advance_rtl st) = _rtl_start_lock st.
Proof. apply advance_rtl_frame. Qed.

Lemma advance_rtl_next st :
  next_phase (_rtl_state st) (_rtl_state (advance_rtl st)).
Proof.
  unfold advance_rtl.
  destruct (_rtl_state st) eqn:E; cbn [set_rtl_state _rtl_state];
    try rewrite E; try constructor.
  destruct (flt (_param_land_delay st) (fneg DELAY_SIGMA)
            || flt DELAY_SIGMA (_param_land_delay st)); constructor.
Qed.

Lemma next_phase_rank (a b : RTLState) :
  next_phase a b -> phase_rank a <= phase_rank b.
Proof. destruct 1; simpl; lia. Qed.

Lemma next_phase_strict (a b : RTLState) :
  next_phase a b -> in_sequence a -> phase_rank a < phase_rank b.
Proof. destruct 1; simpl; intros [H1 H2]; try lia; congruence. Qed.

Lemma entry_decision_rank nav st :
  phase_rank (_rtl_state st) <= phase_rank (_rtl_state (entry_decision nav st)).
Proof.
  unfold entry_decision.
  destruct (_rtl_state st) eqn:E; try (rewrite E; simpl; lia).
  destruct (condition_landed nav); [simpl; lia|].
  destruct (flt _ _); simpl; lia.
Qed.

(** [on_active] either leaves everything but the latch, or advances and
    computes the next target. *)
Lemma on_active_cases nav ps st :
  same_but_latch st (on_active nav ps st) \/
  (_rtl_state st <> RTL_STATE_LANDED /\
   exists l, on_active nav ps st
             = set_rtl_item nav ps (advance_rtl (set_reached l st))).
Proof.
  unfold on_active.
  destruct (RTLState_eqb (_rtl_state st) RTL_STATE_LANDED) eqn:E.
  - left. repeat split.
  - destruct (is_mission_item_reached nav (_mission_item st) (_reached st))
      as [[|] l].
    + right. split; [|exists l; reflexivity].
      intros H. rewrite H in E. discriminate.
    + left. repeat split.
Qed.

Lemma on_active_phase nav ps st :
  _rtl_state (on_active nav ps st) = _rtl_state st \/
  _rtl_state (on_active nav ps st) = _rtl_state (advance_rtl st).
Proof.
  destruct (on_active_cases nav ps st) as [H|(_ & l & ->)].
  - left. apply H.
  - right. rewrite set_rtl_item_phase. unfold advance_rtl.
    cbn [set_reached _rtl_state _param_land_delay].
    destruct (_rtl_state st); try reflexivity.
    destruct (flt (_param_land_delay st) (fneg DELAY_SIGMA)
              || flt DELAY_SIGMA (_param_land_delay st)); reflexivity.
Qed.

Lemma on_active_rank nav ps st :
  phase_rank (_rtl_state st) <= phase_rank (_rtl_state (on_active nav ps st)).
Proof.
  destruct (on_active_phase nav ps st) as [H|H]; rewrite H; [lia|].
  apply next_phase_rank, advance_rtl_next.
Qed.

(** Over any number of [on_active] cycles the phase does not move back. *)
Lemma run_active_rank (hs : list Hook) : forall st,
  all_active hs ->
  phase_rank (_rtl_state st) <= phase_rank (_rtl_state (run hs st)).
Proof.
  induction hs as [|h hs IH]; intros st Hall; cbn [run]; [lia|].
  inversion Hall as [|h' hs' Hh Hhs]; subst.
  destruct h as [|nav ps|nav ps]; try contradiction.
  cbn [run_hook]. specialize (IH (on_active nav ps st) Hhs).
  pose proof (on_active_rank nav ps st). lia.
Qed.

(** *** Entry *)

Lemma set_rtl_item_return_altitude nav ps st :
  _rtl_state st = RTL_STATE_RETURN ->
  altitude (_mission_item (set_rtl_item nav ps st)) = altitude (_mission_item st) /\
  altitude_is_relative (_mission_item (set_rtl_item nav ps st))
  = altitude_is_relative (_mission_item st).
Proof.
  intros HR. unfold set_rtl_item.
  destruct (publish_item_frame (rtl_item_of_state nav (begin_item ps st)))
    as (_ & _ & -> & _).
  destruct (begin_item_frame ps st) as (Hp & _ & Hi & _).
  unfold rtl_item_of_state. rewrite Hp, HR. unfold return_item.
  cbn [set_rtl_start_lock mavlink_log_critical set_mission_item _mission_item
       altitude altitude_is_relative].
  rewrite Hi. split; reflexivity.
Qed.

(** C1. On activation with held phase NONE: a landed vehicle gives phase
    LANDED whatever the altitude; an airborne one below home altitude plus
    return altitude gives CLIMB; otherwise the phase is RETURN and the
    mission item's altitude is the current altitude, marked absolute.  With
    a held phase other than NONE the entry decision changes nothing and the
    phase stays. *)
Theorem on_activation_entry nav ps st :
  let st' := on_activation nav ps st in
  let below :=
    flt (gp_alt (get_global_position nav))
        (fadd (home_alt (get_home_position nav)) (_param_return_alt st)) in
  (_rtl_state st = RTL_STATE_NONE -> condition_landed nav = true ->
     _rtl_state st' = RTL_STATE_LANDED) /\
  (_rtl_state st = RTL_STATE_NONE -> condition_landed nav = false ->
     below = true -> _rtl_state st' = RTL_STATE_CLIMB) /\
  (_rtl_state st = RTL_STATE_NONE -> condition_landed nav = false ->
     below = false ->
     _rtl_state st' = RTL_STATE_RETURN /\
     altitude (_mission_item st') = gp_alt (get_global_position nav) /\
     altitude_is_relative (_mission_item st') = false) /\
  (_rtl_state st <> RTL_STATE_NONE ->
     entry_decision nav st = st /\ _rtl_state st' = _rtl_state st).
Proof.
  cbv zeta. unfold on_activation.
  split; [|split; [|split]].
  - intros HN HL. rewrite set_rtl_item_phase. unfold entry_decision.
    rewrite HN, HL. reflexivity.
  - intros HN HL HB. rewrite set_rtl_item_phase. unfold entry_decision.
    rewrite HN, HL, HB. reflexivity.
  - intros HN HL HB.
    assert (HE : entry_decision nav st
                 = set_rtl_start_lock false
                     (set_mission_item
                        (set_altitude false (gp_alt (get_global_position nav))
                           (_mission_item st))
                        (set_rtl_state RTL_STATE_RETURN st))).
    { unfold entry_decision. rewrite HN, HL, HB. reflexivity. }
    rewrite HE, set_rtl_item_phase.
    split; [reflexivity|].
    apply (set_rtl_item_return_altitude nav ps). reflexivity.
  - intros HN. rewrite set_rtl_item_phase. unfold entry_decision.
    destruct (_rtl_state st) eqn:E; split; congruence.
Qed.

(** *** Advancement *)

(** C2. Advancement maps CLIMB to RETURN, RETURN to DESCEND, DESCEND to
    LOITER or LAND, LOITER to LAND and LAND to LANDED, strictly forward
    along the order, and leaves NONE and LANDED alone; target computation
    keeps the phase; every hook leaves the phase at or after the place it
    had in the order, except [on_inactive] when it resets it to NONE; and
    over any run of [on_active] cycles the phase never moves back. *)
Theorem phase_moves_forward :
  (forall st, next_phase (_rtl_state st) (_rtl_state (advance_rtl st))) /\
  (forall st, in_sequence (_rtl_state st) ->
     phase_rank (_rtl_state st) < phase_rank (_rtl_state (advance_rtl st))) /\
  (forall nav ps st, _rtl_state (set_rtl_item nav ps st) = _rtl_state st) /\
  (forall h st,
     phase_rank (_rtl_state st) <= phase_rank (_rtl_state (run_hook h st)) \/
     (h = OnInactive /\ can_loiter_at_sp st = false /\
      _rtl_state (run_hook h st) = RTL_STATE_NONE)) /\
  (forall hs st, all_active hs ->
     phase_rank (_rtl_state st) <= phase_rank (_rtl_state (run hs st))).
Proof.
  split; [exact advance_rtl_next|].
  split; [intros st Hs; apply next_phase_strict; [apply advance_rtl_next|exact Hs]|].
  split; [exact set_rtl_item_phase|].
  split; [|intros hs st; apply run_active_rank].
  intros [|nav ps|nav ps] st; cbn [run_hook].
  - unfold on_inactive.
    destruct (can_loiter_at_sp st) eqn:E; cbn [negb];
      [left; lia|right; repeat split].
  - left. unfold on_activation. rewrite set_rtl_item_phase.
    apply entry_decision_rank.
  - left. apply on_active_rank.
Qed.

(** C3. Advancing from DESCEND gives LOITER exactly when the land delay is
    below [-DELAY_SIGMA] or above [DELAY_SIGMA], and LAND otherwise, in
    particular whenever the delay lies within the closed band. *)
Theorem descend_advance st :
  _rtl_state st = RTL_STATE_DESCEND ->
  (_rtl_state (advance_rtl st) = RTL_STATE_LOITER
     <-> outside_band (_param_land_delay st)) /\
  (_rtl_state (advance_rtl st) = RTL_STATE_LAND
     <-> ~ outside_band (_param_land_delay st)) /\
  (within_band (_param_land_delay st) ->
     _rtl_state (advance_rtl st) = RTL_STATE_LAND).
Proof.
  intros HD. unfold advance_rtl, outside_band, within_band. rewrite HD.
  destruct (flt (_param_land_delay st) (fneg DELAY_SIGMA)) eqn:Elo;
    destruct (flt DELAY_SIGMA (_param_land_delay st)) eqn:Ehi;
    cbn [orb set_rtl_state _rtl_state].
  - split; [|split].
    + split; auto.
    + split; [discriminate|]. intros H; exfalso; apply H; auto.
    + intros [Hlo _]. apply fle_not_flt in Hlo. congruence.
  - split; [|split].
    + split; auto.
    + split; [discriminate|]. intros H; exfalso; apply H; auto.
    + intros [Hlo _]. apply fle_not_flt in Hlo. congruence.
  - split; [|split].
    + split; auto.
    + split; [discriminate|]. intros H; exfalso; apply H; auto.
    + intros [_ Hhi]. apply fle_not_flt in Hhi. congruence.
  - split; [|split].
    + split; [discriminate|]. intros [H|H]; discriminate.
    + split; [intros _ [H|H]; discriminate|reflexivity].
    + reflexivity.
Qed.

(** *** The LOITER target *)

Lemma set_rtl_item_loiter nav ps st :
  _rtl_state st = RTL_STATE_LOITER ->
  nav_cmd (_mission_item (set_rtl_item nav ps st))
  = (if flt (fneg DELAY_SIGMA) (RTL_LAND_DELAY ps)
     then NAV_CMD_LOITER_TIME_LIMIT else NAV_CMD_LOITER_UNLIMITED) /\
  autocontinue (_mission_item (set_rtl_item nav ps st))
  = flt (fneg DELAY_SIGMA) (RTL_LAND_DELAY ps) /\
  time_inside (_mission_item (set_rtl_item nav ps st))
  = (if flt (RTL_LAND_DELAY ps) fzero then fzero else RTL_LAND_DELAY ps).
Proof.
  intros HL. unfold set_rtl_item.
  destruct (publish_item_frame (rtl_item_of_state nav (begin_item ps st)))
    as (_ & _ & -> & _).
  destruct (begin_item_frame ps st) as (Hp & _).
  destruct (begin_item_writes ps st) as (_ & _ & Hd & _).
  unfold rtl_item_of_state. rewrite Hp, HL. unfold loiter_item. rewrite Hd.
  destruct (flt (fneg DELAY_SIGMA) (RTL_LAND_DELAY ps)); repeat split.
Qed.

(** C4. The LOITER target is a timed loiter that continues by itself
    exactly when the land delay is above [-DELAY_SIGMA], and an unlimited
    loiter that does not otherwise; above [DELAY_SIGMA] the time inside is
    the delay, below [-DELAY_SIGMA] it is zero; in general the time inside
    is the maximum of zero and the delay: zero for a delay below zero and
    the delay otherwise, numerically what [fmaxf] gives for every delay that
    is a number. *)
Theorem loiter_target nav ps st :
  _rtl_state st = RTL_STATE_LOITER ->
  let d := RTL_LAND_DELAY ps in
  let mi := _mission_item (set_rtl_item nav ps st) in
  (flt DELAY_SIGMA d = true ->
     autocontinue mi = true /\ nav_cmd mi = NAV_CMD_LOITER_TIME_LIMIT /\
     time_inside mi = d) /\
  (flt d (fneg DELAY_SIGMA) = true ->
     autocontinue mi = false /\ nav_cmd mi = NAV_CMD_LOITER_UNLIMITED /\
     time_inside mi = fzero) /\
  (nav_cmd mi = NAV_CMD_LOITER_TIME_LIMIT <-> flt (fneg DELAY_SIGMA) d = true) /\
  (nav_cmd mi = NAV_CMD_LOITER_UNLIMITED <-> flt (fneg DELAY_SIGMA) d = false) /\
  autocontinue mi = flt (fneg DELAY_SIGMA) d /\
  is_maximum (time_inside mi) fzero d /\
  time_inside mi = (if flt d fzero then fzero else d) /\
  (d <> NAN -> feq (time_inside mi) (fmaxf fzero d) = true).
Proof.
  intros HL. cbv zeta.
  destruct (set_rtl_item_loiter nav ps st HL) as (Hcmd & Hauto & Htime).
  rewrite Hcmd, Hauto, Htime.
  split; [|split; [|split; [|split; [|split; [|split; [|split]]]]]].
  - intros Hhi. apply above_sigma_positive in Hhi as [H1 H2].
    rewrite H1, H2. repeat split.
  - intros Hlo. apply below_sigma_negative in Hlo as [H1 H2].
    rewrite H1, H2. repeat split.
  - destruct (flt (fneg DELAY_SIGMA) (RTL_LAND_DELAY ps)); split;
      congruence.
  - destruct (flt (fneg DELAY_SIGMA) (RTL_LAND_DELAY ps)); split;
      congruence.
  - reflexivity.
  - apply clamp_is_maximum.
  - reflexivity.
  - apply clamp_is_fmaxf.
Qed.

(** *** The start lock *)

Lemma rtl_item_of_state_log nav st :
  exists l, mavlink_log (rtl_item_of_state nav st) = mavlink_log st ++ l /\
            existsb is_return_at l
            = RTLState_eqb (_rtl_state st) RTL_STATE_RETURN.
Proof.
  unfold_items.
  destruct (_rtl_state st) eqn:E;
    try (eexists; split; [reflexivity|reflexivity]).
  - exists []. rewrite app_nil_r. split; reflexivity.
  - destruct (flt (fneg DELAY_SIGMA) (_param_land_delay st));
      eexists; split; reflexivity.
Qed.

Lemma set_rtl_item_log nav ps st :
  exists l, mavlink_log (set_rtl_item nav ps st) = mavlink_log st ++ l /\
            existsb is_return_at l
            = RTLState_eqb (_rtl_state st) RTL_STATE_RETURN.
Proof.
  unfold set_rtl_item.
  destruct (publish_item_frame (rtl_item_of_state nav (begin_item ps st)))
    as (_ & _ & _ & _ & -> & _).
  destruct (rtl_item_of_state_log nav (begin_item ps st)) as (l & Hl & Hr).
  destruct (begin_item_frame ps st) as (Hp & _ & _ & _ & Hlog & _).
  exists l. rewrite Hl, Hr, Hp, Hlog. split; reflexivity.
Qed.

Lemma entry_decision_airborne nav st :
  _rtl_state st = RTL_STATE_NONE -> condition_landed nav = false ->
  _rtl_start_lock (entry_decision nav st) = false /\
  mavlink_log (entry_decision nav st) = mavlink_log st /\
  (_rtl_state (entry_decision nav st) = RTL_STATE_CLIMB \/
   _rtl_state (entry_decision nav st) = RTL_STATE_RETURN).
Proof.
  intros HN HL. unfold entry_decision. rewrite HN, HL.
  destruct (flt _ _); repeat split; [left|right]; reflexivity.
Qed.

Lemma entry_decision_keeps_lock nav st :
  _rtl_state st <> RTL_STATE_NONE \/ condition_landed nav = true ->
  _rtl_start_lock (entry_decision nav st) = _rtl_start_lock st.
Proof.
  unfold entry_decision. intros [HN|HL].
  - destruct (_rtl_state st); congruence.
  - rewrite HL. destruct (_rtl_state st); reflexivity.
Qed.

Lemma on_activation_tracks nav ps st :
  _rtl_state st = RTL_STATE_NONE -> condition_landed nav = false ->
  lock_tracks_return (mavlink_log st) (on_activation nav ps st).
Proof.
  intros HN HL.
  destruct (entry_decision_airborne nav st HN HL) as (Hlock & Hlog & Hphase).
  unfold lock_tracks_return, on_activation.
  rewrite set_rtl_item_phase, set_rtl_item_lock, Hlock.
  destruct (set_rtl_item_log nav ps (entry_decision nav st)) as (l & Hl & Hr).
  rewrite Hlog in Hl.
  split; [destruct Hphase as [H|H]; rewrite H; discriminate|].
  split; [destruct Hphase as [H|H]; rewrite H; reflexivity|].
  exists l. split; [exact Hl|]. rewrite Hr. reflexivity.
Qed.

Lemma on_active_tracks nav ps st (log0 : list Advisory) :
  lock_tracks_return log0 st -> lock_tracks_return log0 (on_active nav ps st).
Proof.
  intros (HN & Hlock & l & Hl & Hr).
  destruct (on_active_cases nav ps st) as [H|(_ & la & ->)].
  - destruct H as (Hp & Hk & _ & _ & _ & _ & _ & _ & _ & Hg).
    unfold lock_tracks_return. rewrite Hp, Hk, Hg.
    split; [exact HN|]. split; [exact Hlock|]. exists l. split; assumption.
  - set (st1 := advance_rtl (set_reached la st)).
    assert (Hnext : next_phase (_rtl_state st) (_rtl_state st1))
      by apply (advance_rtl_next (set_reached la st)).
    destruct (advance_rtl_frame (set_reached la st))
      as (Hk1 & _ & _ & _ & _ & _ & _ & _ & _ & Hg1).
    fold st1 in Hk1, Hg1. cbn [set_reached _rtl_start_lock mavlink_log] in Hk1, Hg1.
    destruct (set_rtl_item_log nav ps st1) as (l1 & Hl1 & Hr1).
    unfold lock_tracks_return.
    rewrite set_rtl_item_phase, set_rtl_item_lock, Hk1.
    split; [inversion Hnext; congruence|].
    split.
    + rewrite Hlock. inversion Hnext; reflexivity.
    + exists (l ++ l1). rewrite Hl1, Hg1, Hl, <- app_assoc.
      split; [reflexivity|].
      rewrite existsb_app, Hr, Hr1. reflexivity.
Qed.

Lemma run_active_tracks (log0 : list Advisory) (hs : list Hook) : forall st,
  all_active hs -> lock_tracks_return log0 st ->
  lock_tracks_return log0 (run hs st).
Proof.
  induction hs as [|h hs IH]; intros st Hall Hinv; cbn [run]; [exact Hinv|].
  inversion Hall as [|h' hs' Hh Hhs]; subst.
  destruct h as [|nav ps|nav ps]; try contradiction.
  apply IH; [exact Hhs|]. cbn [run_hook]. apply on_active_tracks. exact Hinv.
Qed.

Lemma on_active_keeps_lock nav ps st :
  _rtl_start_lock st = true -> _rtl_start_lock (on_active nav ps st) = true.
Proof.
  intros Ht.
  destruct (on_active_cases nav ps st) as [H|(_ & la & ->)].
  - destruct H as (_ & -> & _). exact Ht.
  - rewrite set_rtl_item_lock, advance_rtl_lock.
    cbn [set_reached _rtl_start_lock]. rewrite Ht. reflexivity.
Qed.

(** C5, as the code has it.  In an activation that enters from NONE while
    airborne the start lock is false after the entry decision, and from then
    on, over any number of [on_active] cycles, it is true exactly when the
    activation has computed a RETURN target, which is exactly from phase
    RETURN on.  An entry while landed or with a held phase leaves the lock as
    it was.  Target computation sets the lock in the RETURN branch and
    nowhere else and never clears it; advancement and [on_inactive] leave it
    alone, and [on_active] never clears it. *)
Theorem start_lock_history :
  (forall nav st,
     _rtl_state st = RTL_STATE_NONE -> condition_landed nav = false ->
     _rtl_start_lock (entry_decision nav st) = false) /\
  (forall nav ps st hs,
     _rtl_state st = RTL_STATE_NONE -> condition_landed nav = false ->
     all_active hs ->
     lock_tracks_return (mavlink_log st) (run hs (on_activation nav ps st))) /\
  (forall nav st,
     _rtl_state st <> RTL_STATE_NONE \/ condition_landed nav = true ->
     _rtl_start_lock (entry_decision nav st) = _rtl_start_lock st) /\
  (forall nav ps st,
     _rtl_start_lock (set_rtl_item nav ps st)
     = _rtl_start_lock st || RTLState_eqb (_rtl_state st) RTL_STATE_RETURN) /\
  (forall st, _rtl_start_lock (advance_rtl st) = _rtl_start_lock st) /\
  (forall st, _rtl_start_lock (on_inactive st) = _rtl_start_lock st) /\
  (forall nav ps st,
     _rtl_start_lock st = true -> _rtl_start_lock (on_active nav ps st) = true).
Proof.
  split; [intros nav st HN HL; apply entry_decision_airborne; assumption|].
  split.
  { intros nav ps st hs HN HL Hall.
    apply run_active_tracks; [exact Hall|].
    apply on_activation_tracks; assumption. }
  split; [exact entry_decision_keeps_lock|].
  split; [exact set_rtl_item_lock|].
  split; [exact advance_rtl_lock|].
  split; [|exact on_active_keeps_lock].
  intros st. unfold on_inactive.
  destruct (negb (can_loiter_at_sp st)); reflexivity.
Qed.

(** *** Idle reset *)

(** C6. [on_inactive] leaves the phase alone while the vehicle may loiter at
    its setpoint, indeed it leaves the whole state alone, and sets the phase
    to NONE otherwise; it changes nothing but the phase. *)
Theorem on_inactive_resets st :
  (can_loiter_at_sp st = true -> on_inactive st = st) /\
  (can_loiter_at_sp st = false ->
     _rtl_state (on_inactive st) = RTL_STATE_NONE) /\
  same_but_phase st (on_inactive st).
Proof.
  unfold on_inactive, same_but_phase.
  destruct (can_loiter_at_sp st) eqn:E; cbn [negb].
  - split; [reflexivity|]. split; [discriminate|]. rewrite E. repeat split.
  - split; [discriminate|]. split; [reflexivity|].
    cbn [set_rtl_state can_loiter_at_sp]. rewrite E. repeat split.
Qed.

(** *** The RETURN target and the end of target computation *)

Lemma rtl_item_of_state_frame nav st :
  _reached (rtl_item_of_state nav st) = _reached st /\
  pos_sp_triplet (rtl_item_of_state nav st) = pos_sp_triplet st /\
  pos_sp_triplet_updated (rtl_item_of_state nav st) = pos_sp_triplet_updated st.
Proof.
  unfold_items.
  destruct (_rtl_state st); try (repeat split; fail).
  destruct (flt (fneg DELAY_SIGMA) (_param_land_delay st)); repeat split.
Qed.

(** C7. The RETURN target is a waypoint at the latitude and longitude of
    home that continues by itself; the altitude fields of the mission item
    are the ones it had on entry; the yaw is the bearing to home from the
    previous setpoint when that setpoint is valid and from the vehicle's
    position otherwise.  The previous setpoint is the one of the triplet when
    the branch runs, which is also the one the call leaves behind. *)
Theorem return_target nav ps st :
  _rtl_state st = RTL_STATE_RETURN ->
  let st' := set_rtl_item nav ps st in
  let mi := _mission_item st' in
  let prev := previous (pos_sp_triplet st') in
  let home := get_home_position nav in
  let here := get_global_position nav in
  lat mi = home_lat home /\
  lon mi = home_lon home /\
  altitude mi = altitude (_mission_item st) /\
  altitude_is_relative mi = altitude_is_relative (_mission_item st) /\
  prev = previous (captured_triplet st) /\
  (valid prev = true ->
     yaw mi = get_bearing_to_next_waypoint (sp_lat prev) (sp_lon prev)
                (home_lat home) (home_lon home)) /\
  (valid prev = false ->
     yaw mi = get_bearing_to_next_waypoint (gp_lat here) (gp_lon here)
                (home_lat home) (home_lon home)) /\
  nav_cmd mi = NAV_CMD_WAYPOINT /\
  autocontinue mi = true /\
  _rtl_start_lock st' = true.
Proof.
  intros HR. cbv zeta.
  destruct (set_rtl_item_return_altitude nav ps st HR) as (Halt & Hrel).
  rewrite Halt, Hrel, set_rtl_item_lock, HR.
  unfold set_rtl_item.
  destruct (publish_item_frame (rtl_item_of_state nav (begin_item ps st)))
    as (_ & _ & -> & _ & _ & ->).
  destruct (rtl_item_of_state_frame nav (begin_item ps st)) as (_ & -> & _).
  destruct (begin_item_frame ps st) as (Hp & _).
  destruct (begin_item_writes ps st) as (_ & _ & _ & _ & Ht).
  unfold rtl_item_of_state. rewrite Hp, HR. unfold return_item.
  cbn [set_rtl_start_lock mavlink_log_critical set_mission_item _mission_item
       lat lon yaw nav_cmd autocontinue].
  rewrite Ht.
  split; [reflexivity|]. split; [reflexivity|].
  split; [reflexivity|]. split; [reflexivity|]. split; [reflexivity|].
  split; [intros Hv; rewrite Hv; reflexivity|].
  split; [intros Hv; rewrite Hv; reflexivity|].
  split; [reflexivity|]. split; [reflexivity|].
  apply orb_true_r.
Qed.

(** C8. In every phase target computation ends by resetting the reached
    latch, converting the mission item it leaves into the current setpoint
    of the triplet, marking the next setpoint invalid, and flagging the
    triplet as updated. *)
Theorem set_rtl_item_publishes nav ps st :
  let st' := set_rtl_item nav ps st in
  _reached st' = reset_mission_item_reached (_reached st) /\
  current (pos_sp_triplet st')
  = mission_item_to_position_setpoint (_mission_item st')
      (current (captured_triplet st)) /\
  valid (next (pos_sp_triplet st')) = false /\
  pos_sp_triplet_updated st' = true.
Proof.
  cbv zeta. unfold set_rtl_item.
  destruct (rtl_item_of_state_frame nav (begin_item ps st)) as (Hr & Ht & _).
  destruct (begin_item_frame ps st) as (_ & _ & _ & Hr0 & _).
  destruct (begin_item_writes ps st) as (_ & _ & _ & _ & Ht0).
  unfold publish_item.
  cbn [set_position_setpoint_triplet_updated set_pos_sp_triplet set_reached
       set_next_valid set_current _reached pos_sp_triplet _mission_item
       pos_sp_triplet_updated current next valid].
  rewrite Hr, Hr0, Ht, Ht0. repeat split.
Qed.

(** C9. Target computation first clears the permission to loiter at the
    setpoint, and after it the permission holds exactly when the phase is
    LOITER. *)
Theorem can_loiter_iff_loiter nav ps st :
  can_loiter_at_sp (begin_item ps st) = false /\
  (can_loiter_at_sp (set_rtl_item nav ps st) = true
     <-> _rtl_state st = RTL_STATE_LOITER).
Proof.
  destruct (begin_item_writes ps st) as (_ & _ & _ & Hc & _).
  destruct (begin_item_frame ps st) as (Hp & _).
  split; [exact Hc|].
  unfold set_rtl_item.
  destruct (publish_item_frame (rtl_item_of_state nav (begin_item ps st)))
    as (_ & _ & _ & -> & _).
  unfold_items. rewrite Hp.
  destruct (_rtl_state st) eqn:E;
    cbn [mavlink_log_critical set_mission_item set_rtl_start_lock
         can_loiter_at_sp];
    try (rewrite Hc; split; discriminate).
  destruct (flt (fneg DELAY_SIGMA) (_param_land_delay (begin_item ps st)));
    split; reflexivity.
Qed.

(** *** Idle cycles *)

(** C10. When the phase is LANDED, or the mission item is not reached,
    [on_active] leaves the phase, the start lock, the mission item, the
    cached parameters, the setpoint triplet and its flags as they were and
    sends no advisory; in phase LANDED the state is the same altogether. *)
Theorem on_active_idle nav ps st :
  _rtl_state st = RTL_STATE_LANDED \/
  fst (is_mission_item_reached nav (_mission_item st) (_reached st)) = false ->
  same_but_latch st (on_active nav ps st) /\
  (_rtl_state st = RTL_STATE_LANDED -> on_active nav ps st = st).
Proof.
  intros H. unfold on_active.
  destruct (RTLState_eqb (_rtl_state st) RTL_STATE_LANDED) eqn:E.
  - split; [repeat split|reflexivity].
  - assert (HL : _rtl_state st <> RTL_STATE_LANDED).
    { intros HL. rewrite HL in E. discriminate. }
    destruct H as [H|H]; [contradiction|].
    destruct (is_mission_item_reached nav (_mission_item st) (_reached st))
      as [r l]. cbn [fst] in H. subst r.
    split; [repeat split|contradiction].
Qed.

End Properties.

(** ** More of the controller *)

Section Coverage.

Context {MB : MissionBlock}.

Implicit Types (st : RTL) (nav : Navigator) (ps : ParamStore).

#[local] Ltac item_fields :=
  cbn [set_mission_item mavlink_log_critical set_rtl_start_lock
       set_can_loiter_at_sp _mission_item _rtl_start_lock mavlink_log
       altitude_is_relative lat lon altitude yaw loiter_radius
       loiter_direction nav_cmd acceptance_radius time_inside pitch_min
       autocontinue origin].

(** The item target computation leaves is the one the switch wrote. *)
Lemma set_rtl_item_switch nav ps st :
  _mission_item (set_rtl_item nav ps st)
  = _mission_item (rtl_item_of_state nav (begin_item ps st)) /\
  mavlink_log (set_rtl_item nav ps st)
  = mavlink_log (rtl_item_of_state nav (begin_item ps st)).
Proof.
  unfold set_rtl_item.
  destruct (publish_item_frame (rtl_item_of_state nav (begin_item ps st)))
    as (_ & _ & -> & _ & -> & _).
  split; reflexivity.
Qed.

(** *** The CLIMB and DESCEND targets *)

(** X1. The CLIMB target is a waypoint at the vehicle's own latitude and
    longitude, at the absolute altitude of home plus the return altitude as
    the parameter store has it when the target is computed, with no yaw; it
    continues by itself, leaves the start lock alone and sends one
    advisory. *)
Theorem climb_target nav ps st :
  _rtl_state st = RTL_STATE_CLIMB ->
  let st' := set_rtl_item nav ps st in
  let mi := _mission_item st' in
  let climb_alt := fadd (home_alt (get_home_position nav)) (RTL_RETURN_ALT ps) in
  lat mi = gp_lat (get_global_position nav) /\
  lon mi = gp_lon (get_global_position nav) /\
  altitude mi = climb_alt /\
  altitude_is_relative mi = false /\
  yaw mi = NAN /\
  nav_cmd mi = NAV_CMD_WAYPOINT /\
  time_inside mi = fzero /\
  autocontinue mi = true /\
  _rtl_start_lock st' = _rtl_start_lock st /\
  mavlink_log st'
  = mavlink_log st
    ++ [LogClimbTo climb_alt (fsub climb_alt (home_alt (get_home_position nav)))].
Proof.
  intros HC. cbv zeta.
  destruct (set_rtl_item_switch nav ps st) as (-> & ->).
  rewrite set_rtl_item_lock, HC.
  destruct (begin_item_frame ps st) as (Hp & _ & _ & _ & Hlog & _).
  destruct (begin_item_writes ps st) as (Hret & _).
  unfold rtl_item_of_state. rewrite Hp, HC. unfold climb_item. item_fields.
  rewrite Hret, Hlog.
  repeat split. apply orb_false_r.
Qed.

(** X2. The DESCEND target is a timed loiter of no duration over home, at the
    absolute altitude of home plus the descend altitude as the parameter
    store has it when the target is computed, with home's yaw; it does not
    continue by itself. *)
Theorem descend_target nav ps st :
  _rtl_state st = RTL_STATE_DESCEND ->
  let st' := set_rtl_item nav ps st in
  let mi := _mission_item st' in
  let home := get_home_position nav in
  lat mi = home_lat home /\
  lon mi = home_lon home /\
  altitude mi = fadd (home_alt home) (RTL_DESCEND_ALT ps) /\
  altitude_is_relative mi = false /\
  yaw mi = home_yaw home /\
  nav_cmd mi = NAV_CMD_LOITER_TIME_LIMIT /\
  time_inside mi = fzero /\
  autocontinue mi = false /\
  _rtl_start_lock st' = _rtl_start_lock st.
Proof.
  intros HD. cbv zeta.
  destruct (set_rtl_item_switch nav ps st) as (-> & _).
  rewrite set_rtl_item_lock, HD.
  destruct (begin_item_frame ps st) as (Hp & _).
  destruct (begin_item_writes ps st) as (_ & Hdes & _).
  unfold rtl_item_of_state. rewrite Hp, HD. unfold descend_item. item_fields.
  rewrite Hdes.
  repeat split. apply orb_false_r.
Qed.


(** X4. In each of the four phases whose target the controller fills in itself
    the item carries the navigator's loiter and acceptance radius, a
    clockwise loiter, no minimum pitch and the onboard origin. *)
Theorem computed_target_radii nav ps st :
  computed_phase (_rtl_state st) ->
  let mi := _mission_item (set_rtl_item nav ps st) in
  loiter_radius mi = get_loiter_radius nav /\
  loiter_direction mi = 1%Z /\
  acceptance_radius mi = get_acceptance_radius nav /\
  pitch_min mi = fzero /\
  origin mi = ORIGIN_ONBOARD.
Proof.
  intros Hc. cbv zeta.
  destruct (set_rtl_item_switch nav ps st) as (-> & _).
  destruct (begin_item_frame ps st) as (Hp & _).
  unfold rtl_item_of_state. rewrite Hp.
  destruct Hc as [H|[H|[H|H]]]; rewrite H.
  - unfold climb_item. item_fields. repeat split.
  - unfold return_item. item_fields. repeat split.
  - unfold descend_item. item_fields. repeat split.
  - unfold loiter_item.
    destruct (flt (fneg DELAY_SIGMA) (_param_land_delay (begin_item ps st)));
      item_fields; repeat split.
Qed.

(** *** A reached item *)

Lemma on_active_advances nav ps st :
  _rtl_state st <> RTL_STATE_LANDED -> reached_now nav st ->
  on_active nav ps st
  = set_rtl_item nav ps
      (advance_rtl
         (set_reached
            (snd (is_mission_item_reached nav (_mission_item st) (_reached st)))
            st)).
Proof.
  unfold reached_now, on_active. intros HL Hr.
  destruct (RTLState_eqb (_rtl_state st) RTL_STATE_LANDED) eqn:E.
  - exfalso. apply HL. unfold RTLState_eqb in E.
    destruct (RTLState_eq_dec (_rtl_state st) RTL_STATE_LANDED);
      [assumption|discriminate].
  - destruct (is_mission_item_reached nav (_mission_item st) (_reached st))
      as [r l]. cbn [fst snd] in *. subst r. reflexivity.
Qed.

Lemma set_rtl_item_previous nav ps st :
  previous (pos_sp_triplet (set_rtl_item nav ps st))
  = previous (captured_triplet st).
Proof.
  unfold set_rtl_item.
  destruct (publish_item_frame (rtl_item_of_state nav (begin_item ps st)))
    as (_ & _ & _ & _ & _ & ->).
  destruct (rtl_item_of_state_frame nav (begin_item ps st)) as (_ & -> & _).
  destruct (begin_item_writes ps st) as (_ & _ & _ & _ & ->). reflexivity.
Qed.

Lemma set_rtl_item_return_place nav ps st :
  _rtl_state st = RTL_STATE_RETURN ->
  lat (_mission_item (set_rtl_item nav ps st)) = home_lat (get_home_position nav) /\
  lon (_mission_item (set_rtl_item nav ps st)) = home_lon (get_home_position nav) /\
  yaw (_mission_item (set_rtl_item nav ps st))
  = (if valid (previous (captured_triplet st))
     then get_bearing_to_next_waypoint
            (sp_lat (previous (captured_triplet st)))
            (sp_lon (previous (captured_triplet st)))
            (home_lat (get_home_position nav)) (home_lon (get_home_position nav))
     else get_bearing_to_next_waypoint
            (gp_lat (get_global_position nav)) (gp_lon (get_global_position nav))
            (home_lat (get_home_position nav)) (home_lon (get_home_position nav))).
Proof.
  intros HR.
  destruct (set_rtl_item_switch nav ps st) as (-> & _).
  destruct (begin_item_frame ps st) as (Hp & _).
  destruct (begin_item_writes ps st) as (_ & _ & _ & _ & Ht).
  unfold rtl_item_of_state. rewrite Hp, HR. unfold return_item. item_fields.
  rewrite Ht. repeat split.
Qed.

Lemma climb_item_altitude nav ps st :
  _rtl_state st = RTL_STATE_CLIMB ->
  altitude (_mission_item (set_rtl_item nav ps st))
  = fadd (home_alt (get_home_position nav)) (RTL_RETURN_ALT ps) /\
  altitude_is_relative (_mission_item (set_rtl_item nav ps st)) = false.
Proof.
  intros HC.
  destruct (set_rtl_item_switch nav ps st) as (-> & _).
  destruct (begin_item_frame ps st) as (Hp & _).
  destruct (begin_item_writes ps st) as (Hret & _).
  unfold rtl_item_of_state. rewrite Hp, HC. unfold climb_item. item_fields.
  rewrite Hret. split; reflexivity.
Qed.

(** X5. A climb followed by its RETURN: when the CLIMB target is reached the next
    cycle moves to RETURN, and the RETURN target is over home at the
    absolute altitude the CLIMB target was given, whatever home altitude and
    parameters are by then. *)
Theorem return_keeps_climb_altitude nav1 ps1 nav2 ps2 st :
  _rtl_state st = RTL_STATE_CLIMB ->
  reached_now nav2 (set_rtl_item nav1 ps1 st) ->
  let st' := on_active nav2 ps2 (set_rtl_item nav1 ps1 st) in
  _rtl_state st' = RTL_STATE_RETURN /\
  altitude (_mission_item st')
  = fadd (home_alt (get_home_position nav1)) (RTL_RETURN_ALT ps1) /\
  altitude_is_relative (_mission_item st') = false /\
  lat (_mission_item st') = home_lat (get_home_position nav2) /\
  lon (_mission_item st') = home_lon (get_home_position nav2) /\
  _rtl_start_lock st' = true.
Proof.
  intros HC Hr. cbv zeta.
  set (s1 := set_rtl_item nav1 ps1 st) in *.
  assert (Hp1 : _rtl_state s1 = RTL_STATE_CLIMB)
    by (unfold s1; rewrite set_rtl_item_phase; exact HC).
  rewrite on_active_advances; [|rewrite Hp1; discriminate|exact Hr].
  set (l := snd (is_mission_item_reached nav2 (_mission_item s1) (_reached s1))).
  assert (Ha : advance_rtl (set_reached l s1)
               = set_rtl_state RTL_STATE_RETURN (set_reached l s1)).
  { unfold advance_rtl. cbn [set_reached _rtl_state]. rewrite Hp1. reflexivity. }
  rewrite Ha.
  set (s2 := set_rtl_state RTL_STATE_RETURN (set_reached l s1)).
  assert (Hp2 : _rtl_state s2 = RTL_STATE_RETURN) by reflexivity.
  destruct (set_rtl_item_return_altitude nav2 ps2 s2 Hp2) as (-> & ->).
  destruct (set_rtl_item_return_place nav2 ps2 s2 Hp2) as (-> & -> & _).
  rewrite set_rtl_item_phase, set_rtl_item_lock, Hp2.
  change (_mission_item s2) with (_mission_item s1).
  destruct (climb_item_altitude nav1 ps1 st HC) as (Halt & Hrel).
  fold s1 in Halt, Hrel. rewrite Halt, Hrel.
  repeat split. apply orb_true_r.
Qed.

(** *** What the start lock protects *)

Lemma captured_triplet_locked st :
  _rtl_start_lock st = true -> captured_triplet st = pos_sp_triplet st.
Proof. unfold captured_triplet. intros ->. reflexivity. Qed.

(** X6. Computing the RETURN target a second time, as a new activation with the
    phase held at RETURN does, gives the same heading and altitude although
    the vehicle has moved, provided home is where it was and the previous
    setpoint is valid: the lock set by the first computation keeps the
    previous setpoint from being captured again. *)
Theorem return_heading_frozen nav ps nav' ps' st :
  _rtl_state st = RTL_STATE_RETURN ->
  valid (previous (pos_sp_triplet (set_rtl_item nav ps st))) = true ->
  get_home_position nav' = get_home_position nav ->
  let s1 := set_rtl_item nav ps st in
  let s2 := set_rtl_item nav' ps' s1 in
  yaw (_mission_item s2) = yaw (_mission_item s1) /\
  altitude (_mission_item s2) = altitude (_mission_item s1) /\
  lat (_mission_item s2) = lat (_mission_item s1) /\
  lon (_mission_item s2) = lon (_mission_item s1) /\
  previous (pos_sp_triplet s2) = previous (pos_sp_triplet s1).
Proof.
  intros HR Hv Hh. cbv zeta.
  set (s1 := set_rtl_item nav ps st) in *.
  assert (Hp1 : _rtl_state s1 = RTL_STATE_RETURN)
    by (unfold s1; rewrite set_rtl_item_phase; exact HR).
  assert (Hk1 : _rtl_start_lock s1 = true).
  { unfold s1. rewrite set_rtl_item_lock, HR. apply orb_true_r. }
  assert (Hprev : previous (pos_sp_triplet s1) = previous (captured_triplet st))
    by apply set_rtl_item_previous.
  destruct (set_rtl_item_return_place nav ps st HR) as (Hlat & Hlon & Hyaw).
  fold s1 in Hlat, Hlon, Hyaw.
  destruct (set_rtl_item_return_place nav' ps' s1 Hp1) as (Hlat' & Hlon' & Hyaw').
  destruct (set_rtl_item_return_altitude nav' ps' s1 Hp1) as (Halt' & _).
  rewrite (captured_triplet_locked s1 Hk1) in Hyaw'.
  rewrite set_rtl_item_previous, (captured_triplet_locked s1 Hk1).
  rewrite Hyaw', Hyaw, Hlat', Hlon', Hlat, Hlon, Halt', Hh.
  rewrite <- Hprev, Hv. repeat split.
Qed.

Lemma on_active_locked_previous nav ps st :
  _rtl_start_lock st = true ->
  previous (pos_sp_triplet (on_active nav ps st)) = previous (pos_sp_triplet st).
Proof.
  intros Hk.
  destruct (on_active_cases nav ps st) as [H|(_ & l & ->)].
  - destruct H as (_ & _ & _ & _ & _ & _ & -> & _). reflexivity.
  - rewrite set_rtl_item_previous, captured_triplet_locked.
    + destruct (advance_rtl_frame (set_reached l st))
        as (_ & _ & _ & _ & _ & _ & -> & _). reflexivity.
    + rewrite advance_rtl_lock. exact Hk.
Qed.

(** X7. Once the start lock is set, no number of [on_active] cycles changes the
    previous setpoint of the triplet, and the lock stays set. *)
Theorem locked_previous_kept (hs : list Hook) : forall st,
  _rtl_start_lock st = true -> all_active hs ->
  previous (pos_sp_triplet (run hs st)) = previous (pos_sp_triplet st) /\
  _rtl_start_lock (run hs st) = true.
Proof.
  induction hs as [|h hs IH]; intros st Hk Hall; cbn [run]; [split; auto|].
  inversion Hall as [|h' hs' Hh Hhs]; subst.
  destruct h as [|nav ps|nav ps]; try contradiction. cbn [run_hook].
  destruct (IH (on_active nav ps st)) as (Hprev & Hlock);
    [apply on_active_keeps_lock; exact Hk|exact Hhs|].
  rewrite Hprev, Hlock. split; [|reflexivity].
  apply on_active_locked_previous. exact Hk.
Qed.

(** *** Interruption and the ends of the sequence *)

Lemma set_rtl_item_can_loiter nav ps st :
  can_loiter_at_sp (set_rtl_item nav ps st)
  = RTLState_eqb (_rtl_state st) RTL_STATE_LOITER.
Proof.
  unfold set_rtl_item.
  destruct (publish_item_frame (rtl_item_of_state nav (begin_item ps st)))
    as (_ & _ & _ & -> & _).
  destruct (begin_item_writes ps st) as (_ & _ & _ & Hc & _).
  destruct (begin_item_frame ps st) as (Hp & _).
  unfold rtl_item_of_state, climb_item, return_item, descend_item, loiter_item.
  rewrite Hp.
  destruct (_rtl_state st);
    cbn [mavlink_log_critical set_mission_item set_rtl_start_lock
         can_loiter_at_sp RTLState_eqb]; try exact Hc.
  destruct (flt (fneg DELAY_SIGMA) (_param_land_delay (begin_item ps st)));
    reflexivity.
Qed.

(** X8. An interruption right after a target computation: [on_inactive] resets
    the phase to NONE unless the target computed was the LOITER one, in
    which case the phase is held. *)
Theorem inactive_after_target nav ps st :
  (_rtl_state st = RTL_STATE_LOITER ->
     on_inactive (set_rtl_item nav ps st) = set_rtl_item nav ps st) /\
  (_rtl_state st <> RTL_STATE_LOITER ->
     _rtl_state (on_inactive (set_rtl_item nav ps st)) = RTL_STATE_NONE).
Proof.
  unfold on_inactive. rewrite set_rtl_item_can_loiter. split; intros H.
  - rewrite H. reflexivity.
  - destruct (_rtl_state st); try reflexivity. congruence.
Qed.

Lemma set_rtl_item_none nav ps st :
  _rtl_state st = RTL_STATE_NONE ->
  _mission_item (set_rtl_item nav ps st) = _mission_item st /\
  mavlink_log (set_rtl_item nav ps st) = mavlink_log st.
Proof.
  intros HN.
  destruct (set_rtl_item_switch nav ps st) as (-> & ->).
  destruct (begin_item_frame ps st) as (Hp & _ & Hi & _ & Hlog & _).
  unfold rtl_item_of_state. rewrite Hp, HN. split; assumption.
Qed.

Lemma hook_keeps_none (h : Hook) st :
  match h with OnActivation _ _ => False | _ => True end ->
  _rtl_state st = RTL_STATE_NONE ->
  _rtl_state (run_hook h st) = RTL_STATE_NONE /\
  _rtl_start_lock (run_hook h st) = _rtl_start_lock st /\
  _mission_item (run_hook h st) = _mission_item st /\
  mavlink_log (run_hook h st) = mavlink_log st.
Proof.
  intros Hh HN. destruct h as [|nav ps|nav ps]; [|contradiction|]; cbn [run_hook].
  - unfold on_inactive. destruct (negb (can_loiter_at_sp st)); repeat split;
      assumption.
  - destruct (on_active_cases nav ps st) as [H|(_ & l & ->)].
    + destruct H as (-> & -> & -> & _ & _ & _ & _ & _ & _ & ->).
      repeat split. exact HN.
    + assert (Ha : advance_rtl (set_reached l st) = set_reached l st).
      { unfold advance_rtl. cbn [set_reached _rtl_state]. rewrite HN.
        reflexivity. }
      rewrite Ha, set_rtl_item_phase, set_rtl_item_lock.
      destruct (set_rtl_item_none nav ps (set_reached l st) HN) as (-> & ->).
      cbn [set_reached _rtl_state _rtl_start_lock]. rewrite HN.
      repeat split. apply orb_false_r.
Qed.

(** X9. Without an activation the procedure does not start: from phase NONE any
    number of [on_inactive] and [on_active] cycles leaves the phase at NONE
    and the start lock, the mission item and the advisory log as they
    were. *)
Theorem none_is_inert (hs : list Hook) : forall st,
  _rtl_state st = RTL_STATE_NONE -> no_activation hs ->
  _rtl_state (run hs st) = RTL_STATE_NONE /\
  _rtl_start_lock (run hs st) = _rtl_start_lock st /\
  _mission_item (run hs st) = _mission_item st /\
  mavlink_log (run hs st) = mavlink_log st.
Proof.
  induction hs as [|h hs IH]; intros st HN Hall; cbn [run];
    [repeat split; exact HN|].
  inversion Hall as [|h' hs' Hh Hhs]; subst.
  destruct (hook_keeps_none h st Hh HN) as (Hp & Hk & Hi & Hl).
  destruct (IH (run_hook h st) Hp Hhs) as (-> & -> & -> & ->).
  repeat split; assumption.
Qed.

(** X10. LANDED is the end: any number of [on_active] cycles leaves the whole
    state of a landed controller as it is. *)
Theorem landed_is_terminal (hs : list Hook) : forall st,
  _rtl_state st = RTL_STATE_LANDED -> all_active hs -> run hs st = st.
Proof.
  induction hs as [|h hs IH]; intros st HL Hall; cbn [run]; [reflexivity|].
  inversion Hall as [|h' hs' Hh Hhs]; subst.
  destruct h as [|nav ps|nav ps]; try contradiction. cbn [run_hook].
  assert (Hs : on_active nav ps st = st).
  { unfold on_active. rewrite HL. reflexivity. }
  rewrite Hs. apply IH; assumption.
Qed.

(** *** Advisories *)

Lemma set_rtl_item_log_length nav ps st :
  length (mavlink_log (set_rtl_item nav ps st))
  = length (mavlink_log st)
    + (if RTLState_eqb (_rtl_state st) RTL_STATE_NONE then 0 else 1).
Proof.
  destruct (set_rtl_item_switch nav ps st) as (_ & ->).
  destruct (begin_item_frame ps st) as (Hp & _ & _ & _ & Hlog & _).
  unfold rtl_item_of_state, climb_item, return_item, descend_item, loiter_item.
  rewrite Hp.
  destruct (_rtl_state st);
    cbn [mavlink_log_critical set_mission_item set_rtl_start_lock
         set_can_loiter_at_sp mavlink_log RTLState_eqb];
    try (rewrite Hlog, length_app; reflexivity).
  - rewrite Hlog. symmetry. apply Nat.add_0_r.
  - destruct (flt (fneg DELAY_SIGMA) (_param_land_delay (begin_item ps st)));
      cbn [mavlink_log_critical set_mission_item set_can_loiter_at_sp mavlink_log];
      rewrite Hlog, length_app; reflexivity.
Qed.

Lemma next_phase_leaves_none (a b : RTLState) :
  next_phase a b ->
  RTLState_eqb b RTL_STATE_NONE = RTLState_eqb a RTL_STATE_NONE.
Proof. destruct 1; reflexivity. Qed.


Lemma RTLState_eqb_eq (a b : RTLState) : RTLState_eqb a b = true -> a = b.
Proof.
  unfold RTLState_eqb.
  destruct (RTLState_eq_dec a b); [intros _; assumption|discriminate].
Qed.


Lemma on_active_log_rank nav ps st :
  length (mavlink_log (on_active nav ps st)) + phase_rank (_rtl_state st)
  <= length (mavlink_log st) + phase_rank (_rtl_state (on_active nav ps st)).
Proof.
  destruct (on_active_cases nav ps st) as [H|(HL & l & Heq)].
  - destruct H as (-> & _ & _ & _ & _ & _ & _ & _ & _ & ->). lia.
  - rewrite Heq.
    pose proof (advance_rtl_next (set_reached l st)) as Hn.
    destruct (advance_rtl_frame (set_reached l st))
      as (_ & _ & _ & _ & _ & _ & _ & _ & _ & Hlog).
    cbn [set_reached _rtl_state mavlink_log] in Hn, Hlog.
    rewrite set_rtl_item_phase, set_rtl_item_log_length, Hlog.
    rewrite (next_phase_leaves_none Hn).
    destruct (RTLState_eqb (_rtl_state st) RTL_STATE_NONE) eqn:E.
    + apply next_phase_rank in Hn. lia.
    + assert (Hs : in_sequence (_rtl_state st)).
      { split; [|exact HL]. intros H. rewrite H in E. discriminate. }
      pose proof (next_phase_strict Hn Hs). lia.
Qed.

(** X12. The advisories of an activation are bounded by its progress: over any
    number of [on_active] cycles the log grows by no more than the phase
    moves along the order, so by at most six entries. *)
Theorem advisories_bounded (hs : list Hook) : forall st,
  all_active hs ->
  length (mavlink_log (run hs st)) + phase_rank (_rtl_state st)
  <= length (mavlink_log st) + phase_rank (_rtl_state (run hs st)) /\
  length (mavlink_log (run hs st)) <= length (mavlink_log st) + 6.
Proof.
  assert (Hmax : forall s, phase_rank s <= 6) by (destruct s; simpl; lia).
  induction hs as [|h hs IH]; intros st Hall; cbn [run]; [lia|].
  inversion Hall as [|h' hs' Hh Hhs]; subst.
  destruct h as [|nav ps|nav ps]; try contradiction. cbn [run_hook].
  destruct (IH (on_active nav ps st) Hhs) as (H1 & _).
  pose proof (on_active_log_rank nav ps st) as H2.
  pose proof (Hmax (_rtl_state (run hs (on_active nav ps st)))).
  lia.
Qed.

(** *** Parameters *)

Lemma set_rtl_item_params nav ps st :
  _param_return_alt (set_rtl_item nav ps st) = RTL_RETURN_ALT ps /\
  _param_descend_alt (set_rtl_item nav ps st) = RTL_DESCEND_ALT ps /\
  _param_land_delay (set_rtl_item nav ps st) = RTL_LAND_DELAY ps.
Proof.
  destruct (begin_item_writes ps st) as (H1 & H2 & H3 & _).
  destruct (begin_item_frame ps st) as (Hp & _).
  unfold set_rtl_item, publish_item, rtl_item_of_state,
    climb_item, return_item, descend_item, loiter_item.
  rewrite Hp.
  destruct (_rtl_state st);
    cbn [set_position_setpoint_triplet_updated set_pos_sp_triplet set_reached
         mavlink_log_critical set_mission_item set_rtl_start_lock
         set_can_loiter_at_sp
         _param_return_alt _param_descend_alt _param_land_delay];
    try (repeat split; assumption).
  destruct (flt (fneg DELAY_SIGMA) (_param_land_delay (begin_item ps st)));
    cbn [mavlink_log_critical set_mission_item set_can_loiter_at_sp
         _param_return_alt _param_descend_alt _param_land_delay];
    repeat split; assumption.
Qed.

Lemma advance_rtl_descend st :
  _rtl_state st = RTL_STATE_DESCEND ->
  advance_rtl st
  = set_rtl_state
      (if flt (_param_land_delay st) (fneg DELAY_SIGMA)
          || flt DELAY_SIGMA (_param_land_delay st)
       then RTL_STATE_LOITER else RTL_STATE_LAND) st.
Proof.
  intros HD. unfold advance_rtl. rewrite HD.
  destruct (flt (_param_land_delay st) (fneg DELAY_SIGMA)
            || flt DELAY_SIGMA (_param_land_delay st)); reflexivity.
Qed.

(** X13. A change of the land delay takes effect one target late.  When the
    RETURN and then the DESCEND target are reached, the choice between
    LOITER and LAND is made with the delay the parameter store held when
    the DESCEND target was computed, not with the one it holds in the cycle
    of the choice; the LOITER target itself is then filled in from the
    newer one. *)
Theorem descend_choice_uses_cached_delay nav1 ps1 nav2 ps2 st :
  _rtl_state st = RTL_STATE_RETURN ->
  reached_now nav1 st ->
  reached_now nav2 (on_active nav1 ps1 st) ->
  let s1 := on_active nav1 ps1 st in
  let s2 := on_active nav2 ps2 s1 in
  _rtl_state s1 = RTL_STATE_DESCEND /\
  (_rtl_state s2 = RTL_STATE_LOITER <-> outside_band (RTL_LAND_DELAY ps1)) /\
  (_rtl_state s2 = RTL_STATE_LAND <-> ~ outside_band (RTL_LAND_DELAY ps1)) /\
  (_rtl_state s2 = RTL_STATE_LOITER ->
     autocontinue (_mission_item s2)
     = flt (fneg DELAY_SIGMA) (RTL_LAND_DELAY ps2) /\
     time_inside (_mission_item s2)
     = (if flt (RTL_LAND_DELAY ps2) fzero then fzero else RTL_LAND_DELAY ps2)).
Proof.
  intros HR Hr1 Hr2. cbv zeta.
  set (s1 := on_active nav1 ps1 st) in *.
  assert (Hs1 : s1 = set_rtl_item nav1 ps1
                       (set_rtl_state RTL_STATE_DESCEND
                          (set_reached
                             (snd (is_mission_item_reached nav1
                                     (_mission_item st) (_reached st))) st))).
  { unfold s1. rewrite on_active_advances;
      [|rewrite HR; discriminate|exact Hr1].
    unfold advance_rtl. cbn [set_reached _rtl_state]. rewrite HR. reflexivity. }
  assert (Hp1 : _rtl_state s1 = RTL_STATE_DESCEND)
    by (rewrite Hs1, set_rtl_item_phase; reflexivity).
  assert (Hd1 : _param_land_delay s1 = RTL_LAND_DELAY ps1)
    by (rewrite Hs1; apply set_rtl_item_params).
  split; [exact Hp1|].
  rewrite on_active_advances; [|rewrite Hp1; discriminate|exact Hr2].
  set (l2 := snd (is_mission_item_reached nav2 (_mission_item s1) (_reached s1))).
  rewrite (advance_rtl_descend (set_reached l2 s1) Hp1).
  cbn [set_reached _param_land_delay]. rewrite Hd1.
  unfold outside_band.
  destruct (flt (RTL_LAND_DELAY ps1) (fneg DELAY_SIGMA)) eqn:Elo;
    destruct (flt DELAY_SIGMA (RTL_LAND_DELAY ps1)) eqn:Ehi;
    cbn [orb]; rewrite set_rtl_item_phase; cbn [set_rtl_state _rtl_state].
  - split; [split; auto|]. split.
    + split; [discriminate|]. intros H; exfalso; apply H; auto.
    + intros _. apply (set_rtl_item_loiter nav2 ps2). reflexivity.
  - split; [split; auto|]. split.
    + split; [discriminate|]. intros H; exfalso; apply H; auto.
    + intros _. apply (set_rtl_item_loiter nav2 ps2). reflexivity.
  - split; [split; auto|]. split.
    + split; [discriminate|]. intros H; exfalso; apply H; auto.
    + intros _. apply (set_rtl_item_loiter nav2 ps2). reflexivity.
  - split; [split; [discriminate|intros [H|H]; discriminate]|]. split.
    + split; [intros _ [H|H]; discriminate|reflexivity].
    + discriminate.
Qed.

(** *** Altitudes that are not numbers *)

Lemma flt_nan_l (x : float) : flt NAN x = false.
Proof. reflexivity. Qed.

Lemma flt_nan_r (x : float) : flt x NAN = false.
Proof. destruct x; reflexivity. Qed.

Lemma fadd_nan_l (x : float) : fadd NAN x = NAN.
Proof. reflexivity. Qed.

Lemma fadd_nan_r (x : float) : fadd x NAN = NAN.
Proof. destruct x; reflexivity. Qed.

(** X14. When the vehicle's altitude, home's altitude or the return altitude is
    not a number, an airborne entry from NONE does not climb: the comparison
    fails, the phase is RETURN and the altitude pinned for the return is the
    vehicle's altitude as reported. *)
Theorem nan_altitude_enters_return nav ps st :
  _rtl_state st = RTL_STATE_NONE -> condition_landed nav = false ->
  gp_alt (get_global_position nav) = NAN \/
  home_alt (get_home_position nav) = NAN \/
  _param_return_alt st = NAN ->
  _rtl_state (on_activation nav ps st) = RTL_STATE_RETURN /\
  altitude (_mission_item (on_activation nav ps st))
  = gp_alt (get_global_position nav) /\
  altitude_is_relative (_mission_item (on_activation nav ps st)) = false.
Proof.
  intros HN HL Hnan.
  assert (Hb : flt (gp_alt (get_global_position nav))
                 (fadd (home_alt (get_home_position nav)) (_param_return_alt st))
               = false).
  { destruct Hnan as [H|[H|H]]; rewrite H.
    - apply flt_nan_l.
    - rewrite fadd_nan_l. apply flt_nan_r.
    - rewrite fadd_nan_r. apply flt_nan_r. }
  assert (HE : entry_decision nav st
               = set_rtl_start_lock false
                   (set_mission_item
                      (set_altitude false (gp_alt (get_global_position nav))
                         (_mission_item st))
                      (set_rtl_state RTL_STATE_RETURN st))).
  { unfold entry_decision. rewrite HN, HL, Hb. reflexivity. }
  unfold on_activation. rewrite HE, set_rtl_item_phase.
  split; [reflexivity|].
  apply (set_rtl_item_return_altitude nav ps). reflexivity.
Qed.

(** *** The constructor *)

Lemma RTL_new_fields ps0 (mi : mission_item_s) (l : Latch)
    (t : position_setpoint_triplet_s) (c u : bool) (log : list Advisory) :
  _rtl_state (RTL_new ps0 mi l t c u log) = RTL_STATE_NONE /\
  _rtl_start_lock (RTL_new ps0 mi l t c u log) = false /\
  _param_return_alt (RTL_new ps0 mi l t c u log) = RTL_RETURN_ALT ps0.
Proof.
  unfold RTL_new, on_inactive. cbn [updateParams can_loiter_at_sp].
  destruct (negb c); repeat split.
Qed.

(** X15. A controller is constructed in phase NONE with the start lock clear and
    the parameters loaded, whatever the navigator's loiter permission says;
    its first activation therefore takes the entry decision: it ends in
    LANDED exactly when the vehicle is landed, otherwise in CLIMB or RETURN
    by the altitude test against the loaded return altitude, and the lock is
    set exactly when it ends in RETURN. *)
Theorem first_activation ps0 (mi : mission_item_s) (l : Latch)
    (t : position_setpoint_triplet_s) (c u : bool) (log : list Advisory)
    nav ps :
  let st0 := RTL_new ps0 mi l t c u log in
  let st' := on_activation nav ps st0 in
  let below :=
    flt (gp_alt (get_global_position nav))
        (fadd (home_alt (get_home_position nav)) (RTL_RETURN_ALT ps0)) in
  _rtl_state st0 = RTL_STATE_NONE /\
  _rtl_state st'
  = (if condition_landed nav then RTL_STATE_LANDED
     else if below then RTL_STATE_CLIMB else RTL_STATE_RETURN) /\
  _rtl_start_lock st' = RTLState_eqb (_rtl_state st') RTL_STATE_RETURN.
Proof.
  cbv zeta.
  destruct (RTL_new_fields ps0 mi l t c u log) as (HN & Hk & Hret).
  set (st0 := RTL_new ps0 mi l t c u log) in *.
  split; [exact HN|].
  unfold on_activation. rewrite set_rtl_item_phase, set_rtl_item_lock.
  unfold entry_decision. rewrite HN, Hret.
  destruct (condition_landed nav).
  - cbn [mavlink_log_critical set_rtl_state _rtl_state _rtl_start_lock].
    rewrite Hk. split; reflexivity.
  - destruct (flt (gp_alt (get_global_position nav))
                (fadd (home_alt (get_home_position nav)) (RTL_RETURN_ALT ps0)));
      split; reflexivity.
Qed.

(** *** Invariants of the reachable states *)

Lemma set_rtl_item_lock_matches nav ps st :
  match _rtl_state st with
  | RTL_STATE_CLIMB => _rtl_start_lock st = false
  | RTL_STATE_DESCEND | RTL_STATE_LOITER | RTL_STATE_LAND =>
      _rtl_start_lock st = true
  | _ => True
  end ->
  lock_matches_phase (set_rtl_item nav ps st).
Proof.
  unfold lock_matches_phase.
  rewrite set_rtl_item_phase, set_rtl_item_lock.
  destruct (_rtl_state st); intros H; try exact I;
    simpl (RTLState_eqb _ _); rewrite ?orb_false_r, ?orb_true_r;
    try exact H; reflexivity.
Qed.

Lemma entry_decision_lock_ready nav st :
  lock_matches_phase st ->
  match _rtl_state (entry_decision nav st) with
  | RTL_STATE_CLIMB => _rtl_start_lock (entry_decision nav st) = false
  | RTL_STATE_DESCEND | RTL_STATE_LOITER | RTL_STATE_LAND =>
      _rtl_start_lock (entry_decision nav st) = true
  | _ => True
  end.
Proof.
  unfold lock_matches_phase, entry_decision.
  destruct (_rtl_state st) eqn:E;
    try (rewrite E; intros H; first [exact H|exact I]).
  intros _. destruct (condition_landed nav); [exact I|].
  destruct (flt _ _); [reflexivity|exact I].
Qed.

Lemma advance_rtl_lock_ready st :
  lock_matches_phase st ->
  match _rtl_state (advance_rtl st) with
  | RTL_STATE_CLIMB => _rtl_start_lock (advance_rtl st) = false
  | RTL_STATE_DESCEND | RTL_STATE_LOITER | RTL_STATE_LAND =>
      _rtl_start_lock (advance_rtl st) = true
  | _ => True
  end.
Proof.
  unfold lock_matches_phase, advance_rtl.
  destruct (_rtl_state st) eqn:E;
    try (rewrite E; intros H; first [exact H|exact I]);
    try (intros H; first [exact H|exact I]).
  destruct (flt (_param_land_delay st) (fneg DELAY_SIGMA)
            || flt DELAY_SIGMA (_param_land_delay st)); intros H; exact H.
Qed.

Lemma run_hook_lock_matches (h : Hook) st :
  lock_matches_phase st -> lock_matches_phase (run_hook h st).
Proof.
  intros Hinv. destruct h as [|nav ps|nav ps]; cbn [run_hook].
  - unfold on_inactive. destruct (negb (can_loiter_at_sp st));
      [exact I|exact Hinv].
  - apply set_rtl_item_lock_matches, entry_decision_lock_ready. exact Hinv.
  - destruct (on_active_cases nav ps st) as [H|(_ & l & ->)].
    + destruct H as (Hp & Hk & _). unfold lock_matches_phase in *.
      rewrite Hp, Hk. exact Hinv.
    + apply set_rtl_item_lock_matches, advance_rtl_lock_ready. exact Hinv.
Qed.

(** X16. In every reachable state the start lock agrees with the phase: it is
    clear in CLIMB and set in RETURN, DESCEND, LOITER and LAND, across
    activations, resets and whatever other modes write to the triplet, the
    loiter permission and the log. *)
Theorem reachable_lock_matches st :
  reachable st -> lock_matches_phase st.
Proof.
  induction 1 as [ps mi l t c u log|h st _ IH|b st _ IH|t st _ IH|a st _ IH].
  - unfold lock_matches_phase.
    destruct (RTL_new_fields ps mi l t c u log) as (-> & _). exact I.
  - apply run_hook_lock_matches. exact IH.
  - exact IH.
  - exact IH.
  - exact IH.
Qed.

Lemma set_rtl_item_item_matches nav ps st :
  (_rtl_state st = RTL_STATE_RETURN ->
     altitude_is_relative (_mission_item st) = false) ->
  item_matches_phase (set_rtl_item nav ps st).
Proof.
  intros Hrel. unfold item_matches_phase. cbv zeta.
  rewrite set_rtl_item_phase.
  destruct (_rtl_state st) eqn:E; try exact I.
  - destruct (set_rtl_item_switch nav ps st) as (-> & _).
    destruct (begin_item_frame ps st) as (Hp & _).
    unfold rtl_item_of_state. rewrite Hp, E. unfold climb_item. item_fields.
    repeat split.
  - destruct (set_rtl_item_return_altitude nav ps st E) as (_ & H1).
    destruct (set_rtl_item_switch nav ps st) as (Hi & _).
    rewrite H1, Hi.
    destruct (begin_item_frame ps st) as (Hp & _).
    unfold rtl_item_of_state. rewrite Hp, E. unfold return_item. item_fields.
    repeat split. apply Hrel. reflexivity.
  - destruct (set_rtl_item_switch nav ps st) as (-> & _).
    destruct (begin_item_frame ps st) as (Hp & _).
    unfold rtl_item_of_state. rewrite Hp, E. unfold descend_item. item_fields.
    repeat split.
  - destruct (set_rtl_item_loiter nav ps st E) as (Hc & Ha & _).
    rewrite Hc, Ha.
    destruct (set_rtl_item_switch nav ps st) as (-> & _).
    destruct (begin_item_frame ps st) as (Hp & _).
    unfold rtl_item_of_state. rewrite Hp, E. unfold loiter_item.
    destruct (flt (fneg DELAY_SIGMA) (_param_land_delay (begin_item ps st)));
      item_fields; (split; [reflexivity|]);
      destruct (flt (fneg DELAY_SIGMA) (RTL_LAND_DELAY ps));
      [left|right|left|right]; split; reflexivity.
Qed.

Lemma entry_decision_item_ready nav st :
  item_matches_phase st ->
  _rtl_state (entry_decision nav st) = RTL_STATE_RETURN ->
  altitude_is_relative (_mission_item (entry_decision nav st)) = false.
Proof.
  unfold item_matches_phase, entry_decision. cbv zeta.
  destruct (_rtl_state st) eqn:E; intros Hinv; rewrite ?E;
    try discriminate; try (intros _; apply Hinv).
  destruct (condition_landed nav); [discriminate|].
  destruct (flt _ _); [discriminate|]. reflexivity.
Qed.

Lemma advance_rtl_item_ready st :
  item_matches_phase st ->
  _rtl_state (advance_rtl st) = RTL_STATE_RETURN ->
  altitude_is_relative (_mission_item (advance_rtl st)) = false.
Proof.
  unfold item_matches_phase, advance_rtl. cbv zeta.
  destruct (_rtl_state st) eqn:E; intros Hinv; rewrite ?E;
    try discriminate; try (intros _; apply Hinv).
  destruct (flt (_param_land_delay st) (fneg DELAY_SIGMA)
            || flt DELAY_SIGMA (_param_land_delay st)); discriminate.
Qed.

Lemma run_hook_item_matches (h : Hook) st :
  item_matches_phase st -> item_matches_phase (run_hook h st).
Proof.
  intros Hinv. destruct h as [|nav ps|nav ps]; cbn [run_hook].
  - unfold on_inactive. destruct (negb (can_loiter_at_sp st));
      [exact I|exact Hinv].
  - apply set_rtl_item_item_matches, entry_decision_item_ready. exact Hinv.
  - destruct (on_active_cases nav ps st) as [H|(_ & l & ->)].
    + destruct H as (Hp & _ & Hi & _). unfold item_matches_phase in *.
      cbv zeta in *. rewrite Hp, Hi. exact Hinv.
    + apply set_rtl_item_item_matches, advance_rtl_item_ready. exact Hinv.
Qed.

(** X17. In every reachable state the outstanding mission item is one of the
    current phase: in CLIMB and RETURN a waypoint that continues by itself,
    in DESCEND a timed loiter of no duration that does not, in LOITER a
    timed loiter that continues or an unlimited one that does not, and in all
    four with an absolute altitude. *)
Theorem reachable_item_matches st :
  reachable st -> item_matches_phase st.
Proof.
  induction 1 as [ps mi l t c u log|h st _ IH|b st _ IH|t st _ IH|a st _ IH].
  - unfold item_matches_phase. cbv zeta.
    destruct (RTL_new_fields ps mi l t c u log) as (-> & _). exact I.
  - apply run_hook_item_matches. exact IH.
  - exact IH.
  - exact IH.
  - exact IH.
Qed.

Lemma reachable_run (hs : list Hook) : forall st,
  reachable st -> reachable (run hs st).
Proof.
  induction hs as [|h hs IH]; intros st Hr; cbn [run]; [exact Hr|].
  apply IH, reach_hook, Hr.
Qed.

(** *** Completion *)

Lemma rank_six_landed (s : RTLState) : 6 <= phase_rank s -> s = RTL_STATE_LANDED.
Proof. destruct s; simpl; intros H; try lia; reflexivity. Qed.

Lemma reached_step nav ps st :
  in_sequence (_rtl_state st) -> reached_now nav st ->
  phase_rank (_rtl_state st) < phase_rank (_rtl_state (on_active nav ps st)) /\
  _rtl_state (on_active nav ps st) <> RTL_STATE_NONE.
Proof.
  intros Hs Hr.
  rewrite on_active_advances; [|apply Hs|exact Hr].
  rewrite set_rtl_item_phase.
  set (l := snd (is_mission_item_reached nav (_mission_item st) (_reached st))).
  pose proof (advance_rtl_next (set_reached l st)) as Hn.
  cbn [set_reached _rtl_state] in Hn.
  pose proof (next_phase_strict Hn Hs) as Hlt.
  split; [exact Hlt|].
  intros H0. rewrite H0 in Hlt. simpl in Hlt. lia.
Qed.

Lemma all_reached_rank (hs : list Hook) : forall st,
  _rtl_state st <> RTL_STATE_NONE -> all_reached hs st ->
  Nat.min 6 (phase_rank (_rtl_state st) + length hs)
  <= phase_rank (_rtl_state (run hs st)).
Proof.
  induction hs as [|h hs IH]; intros st HN Hall; cbn [run length].
  - rewrite Nat.add_0_r. apply Nat.le_min_r.
  - destruct h as [|nav ps|nav ps]; try contradiction.
    destruct Hall as (Hnow & Hrest). cbn [run_hook].
    destruct (RTLState_eq_dec (_rtl_state st) RTL_STATE_LANDED) as [HL|HL].
    + assert (Hs : on_active nav ps st = st)
        by (unfold on_active; rewrite HL; reflexivity).
      rewrite Hs in *. specialize (IH st HN Hrest).
      rewrite HL in *. simpl phase_rank in *. lia.
    + destruct Hnow as [Hnow|Hnow]; [contradiction|].
      assert (Hs : in_sequence (_rtl_state st)) by (split; assumption).
      destruct (@reached_step nav ps st Hs Hnow) as (Hlt & HN').
      specialize (IH (on_active nav ps st) HN' Hrest). lia.
Qed.

(** X18. The procedure completes within five reached targets: started in any
    phase but NONE, a run of [on_active] cycles in each of which the item is
    reached (or the phase is already LANDED) ends in LANDED as soon as it
    has five cycles. *)
Theorem completes_in_five (hs : list Hook) st :
  _rtl_state st <> RTL_STATE_NONE -> all_reached hs st -> 5 <= length hs ->
  _rtl_state (run hs st) = RTL_STATE_LANDED.
Proof.
  intros HN Hall Hlen.
  pose proof (all_reached_rank hs st HN Hall) as H.
  apply rank_six_landed.
  assert (1 <= phase_rank (_rtl_state st))
    by (destruct (_rtl_state st); simpl; try lia; congruence).
  lia.
Qed.

End Coverage.

(** ** The controller on concrete inputs *)

Import Sample.

Example delay_sigma_is_a_hundredth :
  valid_binary prec32 emax32 DELAY_SIGMA = true /\
  SFdiv prec32 emax32 (float_of_Z 1) (float_of_Z 100) = DELAY_SIGMA.
Proof. split; vm_compute; reflexivity. Qed.

(** The example of the specification: CLIMB to 150 m, RETURN at the
    unchanged 150 m, DESCEND to 120 m, and with a land delay of zero
    straight to LAND and LANDED. *)
Example example_flight_phases :
  map (fun n => _rtl_state (run (firstn n example_flight) (fresh fzero)))
      [0; 1; 2; 3; 4; 5]
  = [RTL_STATE_NONE; RTL_STATE_CLIMB; RTL_STATE_RETURN; RTL_STATE_DESCEND;
     RTL_STATE_LAND; RTL_STATE_LANDED] /\
  map (fun n => altitude (_mission_item (run (firstn n example_flight) (fresh fzero))))
      [1; 2; 3]
  = [float_of_Z 150; float_of_Z 150; float_of_Z 120].
Proof. split; vm_compute; reflexivity. Qed.

Lemma on_activation_entry_witness :
  _rtl_state (on_activation (nav_at false 0 0 200) (params fzero) (fresh fzero))
  = RTL_STATE_RETURN /\
  altitude (_mission_item
              (on_activation (nav_at false 0 0 200) (params fzero) (fresh fzero)))
  = float_of_Z 200 /\
  altitude_is_relative
    (_mission_item
       (on_activation (nav_at false 0 0 200) (params fzero) (fresh fzero)))
  = false.
Proof.
  apply (on_activation_entry (nav_at false 0 0 200) (params fzero) (fresh fzero));
    reflexivity.
Defined.

Lemma descend_advance_witness :
  _rtl_state (held RTL_STATE_DESCEND true fzero) = RTL_STATE_DESCEND /\
  _rtl_state (advance_rtl (held RTL_STATE_DESCEND true fzero)) = RTL_STATE_LAND.
Proof.
  split; [reflexivity|].
  apply (descend_advance (held RTL_STATE_DESCEND true fzero) eq_refl).
  split; reflexivity.
Defined.

Lemma loiter_target_witness :
  _rtl_state (held RTL_STATE_LOITER true fzero) = RTL_STATE_LOITER /\
  autocontinue
    (_mission_item
       (set_rtl_item (nav_at false 0 0 120) (params (float_of_Z 30))
          (held RTL_STATE_LOITER true fzero))) = true /\
  nav_cmd
    (_mission_item
       (set_rtl_item (nav_at false 0 0 120) (params (float_of_Z 30))
          (held RTL_STATE_LOITER true fzero))) = NAV_CMD_LOITER_TIME_LIMIT /\
  time_inside
    (_mission_item
       (set_rtl_item (nav_at false 0 0 120) (params (float_of_Z 30))
          (held RTL_STATE_LOITER true fzero))) = float_of_Z 30.
Proof.
  split; [reflexivity|].
  apply (loiter_target (nav_at false 0 0 120) (params (float_of_Z 30))
           (held RTL_STATE_LOITER true fzero) eq_refl).
  reflexivity.
Defined.

(** A land delay that is not a number gives an unlimited loiter that does
    not continue, with a time inside that is not a number either. *)
Example loiter_nan_delay :
  nav_cmd
    (_mission_item
       (set_rtl_item (nav_at false 0 0 120) (params NAN)
          (held RTL_STATE_LOITER true fzero))) = NAV_CMD_LOITER_UNLIMITED /\
  autocontinue
    (_mission_item
       (set_rtl_item (nav_at false 0 0 120) (params NAN)
          (held RTL_STATE_LOITER true fzero))) = false /\
  time_inside
    (_mission_item
       (set_rtl_item (nav_at false 0 0 120) (params NAN)
          (held RTL_STATE_LOITER true fzero))) = NAN.
Proof.
  split; [|split]; vm_compute; reflexivity.
Qed.

Lemma start_lock_history_witness :
  lock_tracks_return (mavlink_log (fresh fzero))
    (run [ OnActive (nav_at false 7 7 150) (params fzero);
           OnActive (nav_at false 0 0 150) (params fzero) ]
       (on_activation (nav_at false 7 7 80) (params fzero) (fresh fzero))).
Proof.
  apply start_lock_history; [reflexivity|reflexivity|].
  repeat constructor.
Defined.

(** A second activation, on the ground, of a controller that has returned
    before: the start lock is set although this activation computes no
    RETURN target. *)
Lemma landed_entry_keeps_lock :
  _rtl_state first_flight = RTL_STATE_NONE /\
  condition_landed landed_at_home = true /\
  _rtl_state (on_activation landed_at_home (params fzero) first_flight)
  = RTL_STATE_LANDED /\
  _rtl_start_lock (on_activation landed_at_home (params fzero) first_flight)
  = true /\
  mavlink_log (on_activation landed_at_home (params fzero) first_flight)
  = mavlink_log first_flight ++ [LogNoRtlWhenLanded; LogCompletedLanded].
Proof.
  split; [|split; [|split; [|split]]]; vm_compute; reflexivity.
Qed.

Lemma on_inactive_resets_witness :
  _rtl_state (on_inactive (held RTL_STATE_DESCEND true fzero)) = RTL_STATE_NONE.
Proof.
  apply (on_inactive_resets (held RTL_STATE_DESCEND true fzero)). reflexivity.
Defined.

Lemma return_target_witness :
  _rtl_state (held RTL_STATE_RETURN false fzero) = RTL_STATE_RETURN /\
  yaw (_mission_item
         (set_rtl_item (nav_at false 3 4 200) (params fzero)
            (held RTL_STATE_RETURN false fzero)))
  = get_bearing_to_next_waypoint (float_of_Z 3) (float_of_Z 4) fzero fzero.
Proof.
  split; [reflexivity|].
  apply (return_target (nav_at false 3 4 200) (params fzero)
           (held RTL_STATE_RETURN false fzero) eq_refl).
  reflexivity.
Defined.

Lemma on_active_idle_witness :
  same_but_latch
    (on_activation (nav_at false 7 7 80) (params fzero) (fresh fzero))
    (on_active (nav_at false 7 7 90) (params fzero)
       (on_activation (nav_at false 7 7 80) (params fzero) (fresh fzero))).
Proof.
  apply (on_active_idle (nav_at false 7 7 90) (params fzero)
           (on_activation (nav_at false 7 7 80) (params fzero) (fresh fzero))).
  right. reflexivity.
Defined.

(** ** More of the controller on concrete inputs *)

Import Flights.

Lemma climb_target_witness :
  _rtl_state (held RTL_STATE_CLIMB false fzero) = RTL_STATE_CLIMB /\
  altitude
    (_mission_item
       (set_rtl_item (nav_at false 7 7 80) (params fzero)
          (held RTL_STATE_CLIMB false fzero)))
  = fadd (float_of_Z 100) (float_of_Z 50).
Proof.
  split; [reflexivity|].
  apply (@climb_target mission_block (nav_at false 7 7 80) (params fzero)
           (held RTL_STATE_CLIMB false fzero) eq_refl).
Defined.

Lemma descend_target_witness :
  _rtl_state (held RTL_STATE_DESCEND true fzero) = RTL_STATE_DESCEND /\
  altitude
    (_mission_item
       (set_rtl_item (nav_at false 0 0 150) (params fzero)
          (held RTL_STATE_DESCEND true fzero)))
  = fadd (float_of_Z 100) (float_of_Z 20).
Proof.
  split; [reflexivity|].
  apply (@descend_target mission_block (nav_at false 0 0 150) (params fzero)
           (held RTL_STATE_DESCEND true fzero) eq_refl).
Defined.


Lemma computed_target_radii_witness :
  computed_phase (_rtl_state (held RTL_STATE_RETURN false fzero)) /\
  acceptance_radius
    (_mission_item
       (set_rtl_item (nav_at false 3 4 200) (params fzero)
          (held RTL_STATE_RETURN false fzero)))
  = float_of_Z 10.
Proof.
  assert (H : computed_phase (_rtl_state (held RTL_STATE_RETURN false fzero)))
    by (right; left; reflexivity).
  split; [exact H|].
  apply (@computed_target_radii mission_block (nav_at false 3 4 200)
           (params fzero) (held RTL_STATE_RETURN false fzero) H).
Defined.

Lemma return_keeps_climb_altitude_witness :
  _rtl_state (held RTL_STATE_CLIMB false fzero) = RTL_STATE_CLIMB /\
  reached_now (nav_at false 7 7 150)
    (set_rtl_item (nav_at false 7 7 80) (params fzero)
       (held RTL_STATE_CLIMB false fzero)) /\
  altitude
    (_mission_item
       (on_active (nav_at false 7 7 150) (params (float_of_Z 30))
          (set_rtl_item (nav_at false 7 7 80) (params fzero)
             (held RTL_STATE_CLIMB false fzero))))
  = fadd (float_of_Z 100) (float_of_Z 50).
Proof.
  assert (Hr : reached_now (nav_at false 7 7 150)
                 (set_rtl_item (nav_at false 7 7 80) (params fzero)
                    (held RTL_STATE_CLIMB false fzero)))
    by (vm_compute; reflexivity).
  split; [reflexivity|]. split; [exact Hr|].
  apply (@return_keeps_climb_altitude mission_block (nav_at false 7 7 80)
           (params fzero) (nav_at false 7 7 150) (params (float_of_Z 30))
           (held RTL_STATE_CLIMB false fzero) eq_refl Hr).
Defined.

Lemma return_heading_frozen_witness :
  yaw (_mission_item
         (set_rtl_item (nav_at false 1 2 150) (params fzero)
            (set_rtl_item (nav_at false 7 7 150) (params fzero)
               (set_rtl_state RTL_STATE_RETURN climbing))))
  = yaw (_mission_item
           (set_rtl_item (nav_at false 7 7 150) (params fzero)
              (set_rtl_state RTL_STATE_RETURN climbing))).
Proof.
  apply (@return_heading_frozen mission_block (nav_at false 7 7 150)
           (params fzero) (nav_at false 1 2 150) (params fzero)
           (set_rtl_state RTL_STATE_RETURN climbing));
    vm_compute; reflexivity.
Defined.

Lemma locked_previous_kept_witness :
  previous (pos_sp_triplet (run (tl to_the_ground) returning))
  = previous (pos_sp_triplet returning) /\
  _rtl_start_lock (run (tl to_the_ground) returning) = true.
Proof.
  apply (@locked_previous_kept mission_block (tl to_the_ground) returning).
  - vm_compute. reflexivity.
  - repeat constructor.
Defined.

Lemma none_is_inert_witness :
  _rtl_state
    (run [OnActive (nav_at false 7 7 80) (params fzero); OnInactive]
       (fresh fzero)) = RTL_STATE_NONE.
Proof.
  apply (@none_is_inert mission_block
           [OnActive (nav_at false 7 7 80) (params fzero); OnInactive]
           (fresh fzero)).
  - reflexivity.
  - repeat constructor.
Defined.

Lemma landed_is_terminal_witness :
  run to_the_ground (held RTL_STATE_LANDED true fzero)
  = held RTL_STATE_LANDED true fzero.
Proof.
  apply (@landed_is_terminal mission_block to_the_ground
           (held RTL_STATE_LANDED true fzero)).
  - reflexivity.
  - repeat constructor.
Defined.


Lemma advisories_bounded_witness :
  length (mavlink_log (run to_the_ground climbing))
  <= length (mavlink_log climbing) + 6.
Proof.
  apply (@advisories_bounded mission_block to_the_ground climbing).
  repeat constructor.
Defined.

Lemma descend_choice_uses_cached_delay_witness :
  reached_now (nav_at false 0 0 150) returning /\
  reached_now (nav_at false 0 0 120)
    (on_active (nav_at false 0 0 150) (params (float_of_Z 30)) returning) /\
  _rtl_state
    (on_active (nav_at false 0 0 150) (params (float_of_Z 30)) returning)
  = RTL_STATE_DESCEND.
Proof.
  assert (H1 : reached_now (nav_at false 0 0 150) returning)
    by (vm_compute; reflexivity).
  assert (H2 : reached_now (nav_at false 0 0 120)
                 (on_active (nav_at false 0 0 150) (params (float_of_Z 30))
                    returning))
    by (vm_compute; reflexivity).
  split; [exact H1|]. split; [exact H2|].
  apply (@descend_choice_uses_cached_delay mission_block
           (nav_at false 0 0 150) (params (float_of_Z 30))
           (nav_at false 0 0 120) (params fzero) returning);
    [vm_compute; reflexivity|exact H1|exact H2].
Defined.

(** The delay was 30 s when the DESCEND target was computed and is zero in
    the cycle of the choice: the phase becomes LOITER, with a loiter of no
    duration. *)
Example late_delay_change :
  _rtl_state
    (on_active (nav_at false 0 0 120) (params fzero)
       (on_active (nav_at false 0 0 150) (params (float_of_Z 30)) returning))
  = RTL_STATE_LOITER /\
  time_inside
    (_mission_item
       (on_active (nav_at false 0 0 120) (params fzero)
          (on_active (nav_at false 0 0 150) (params (float_of_Z 30)) returning)))
  = fzero.
Proof. split; vm_compute; reflexivity. Qed.

Lemma nan_altitude_enters_return_witness :
  _rtl_state (on_activation nav_without_altitude (params fzero) (fresh fzero))
  = RTL_STATE_RETURN /\
  altitude
    (_mission_item
       (on_activation nav_without_altitude (params fzero) (fresh fzero)))
  = NAN.
Proof.
  destruct (@nan_altitude_enters_return mission_block nav_without_altitude
              (params fzero) (fresh fzero) eq_refl eq_refl
              (or_introl eq_refl)) as (H1 & H2 & _).
  split; [exact H1|exact H2].
Defined.

Lemma reachable_lock_matches_witness :
  _rtl_state (run example_flight (fresh fzero)) = RTL_STATE_LANDED /\
  lock_matches_phase (run (firstn 3 example_flight) (fresh fzero)).
Proof.
  split; [vm_compute; reflexivity|].
  apply (@reachable_lock_matches mission_block).
  apply reachable_run. unfold fresh. apply reach_new.
Defined.

Lemma reachable_item_matches_witness :
  item_matches_phase (descending fzero).
Proof.
  apply (@reachable_item_matches mission_block).
  apply (reach_hook (OnActive (nav_at false 0 0 150) (params fzero))).
  apply (reach_hook (OnActive (nav_at false 7 7 150) (params fzero))).
  apply (reach_hook (OnActivation (nav_at false 7 7 80) (params fzero))).
  unfold fresh. apply reach_new.
Defined.

Lemma completes_in_five_witness :
  _rtl_state (run to_the_ground climbing) = RTL_STATE_LANDED.
Proof.
  apply (@completes_in_five mission_block to_the_ground climbing).
  - vm_compute. discriminate.
  - cbn [to_the_ground all_reached].
    split; [right; vm_compute; reflexivity|].
    split; [right; vm_compute; reflexivity|].
    split; [right; vm_compute; reflexivity|].
    split; [right; vm_compute; reflexivity|].
    split; [left; vm_compute; reflexivity|exact I].
  - vm_compute. repeat constructor.
Defined.
